(** * hoon.bot: the subscriber scheduler of [src/index.js]

    A shallow embedding of the command handlers, the content fetcher, the
    HTTP routes, the dispatch tick and its timer of [src/index.js], and the
    properties of the scheduling core that were checked against it.

    Conventions of the embedding.
    - A JavaScript string is the [string] of its UTF-8 bytes.
    - A JavaScript number is a [Z].  This is what the program computes as
      long as the integers it reads, adds and multiplies are at most 2^53
      in absolute value ([exactNumber]); past that a double is rounded,
      and past about 1.8e308 it is [Infinity], which [JSON.stringify]
      writes as [null].  The embedding does not follow the program there:
      a property that depends on the value of a number that a message can
      make that large is stated with [exactNumber] as its bound.
    - A number field that can hold [NaN] is an [option Z]: every operation
      starts from [readDatabase], and [JSON.stringify] writes [NaN] as
      [null], so [None] stands for that [null].
    - [undefined] is [None] wherever a lookup can miss.
    - The store file is read and written without failure, and holds
      records of the shape that the program writes; an identity is not the
      name of a property of [Object.prototype].
    - One operation runs at a time: a tick is not interleaved with a
      request or with another tick. *)

From Stdlib Require Import ZArith List String Ascii Bool Lia DecimalString.
Import ListNotations.

Open Scope string_scope.
Open Scope Z_scope.

(* ================================================================= *)
(** ** JavaScript primitives used by the program *)

Module JS.

Definition code (c : ascii) : Z := Z.of_nat (nat_of_ascii c).

(** [i <= code c <= j] *)
Definition between (i j : Z) (c : ascii) : bool :=
  (i <=? code c) && (code c <=? j).

Definition isCode (k : Z) (c : ascii) : bool := code c =? k.

(** White space of one byte: TAB, LF, VT, FF, CR, SP. *)
Definition ws1 (c : ascii) : bool := between 9 13 c || isCode 32 c.

(** U+00A0. *)
Definition ws2 (c d : ascii) : bool := isCode 194 c && isCode 160 d.

(** U+1680, U+2000..U+200A, U+2028, U+2029, U+202F, U+205F, U+3000,
    U+FEFF. *)
Definition ws3 (c d e : ascii) : bool :=
  (isCode 225 c && isCode 154 d && isCode 128 e)
  || (isCode 226 c && isCode 128 d
      && (between 128 138 e || isCode 168 e || isCode 169 e || isCode 175 e))
  || (isCode 226 c && isCode 129 d && isCode 159 e)
  || (isCode 227 c && isCode 128 d && isCode 128 e)
  || (isCode 239 c && isCode 187 d && isCode 191 e).

(** The leading white space that [parseInt] skips. *)
Fixpoint trimStart (s : string) : string :=
  match s with
  | EmptyString => s
  | String c r =>
      if ws1 c then trimStart r
      else match r with
           | EmptyString => s
           | String d r2 =>
               if ws2 c d then trimStart r2
               else match r2 with
                    | EmptyString => s
                    | String e r3 => if ws3 c d e then trimStart r3 else s
                    end
           end
  end.

Definition digit (radix : Z) (c : ascii) : option Z :=
  let v :=
    if between 48 57 c then Some (code c - 48)
    else if between 97 122 c then Some (code c - 87)
    else if between 65 90 c then Some (code c - 55)
    else None in
  match v with
  | Some d => if d <? radix then Some d else None
  | None => None
  end.

(** The longest prefix of digits, read in [radix]; [acc] is [None] until a
    digit has been read. *)
Fixpoint digits (radix : Z) (acc : option Z) (s : string) : option Z :=
  match s with
  | EmptyString => acc
  | String c r =>
      match digit radix c with
      | None => acc
      | Some d =>
          digits radix
            (Some (radix * match acc with Some a => a | None => 0 end + d)) r
      end
  end.

(** [parseInt(s)] with no radix argument; [None] is [NaN].  The value is
    the integer that the digits spell; [parseInt] gives the double nearest
    to it, which is that integer when it is an [exactNumber] (see the
    notions below). *)
Definition parseInt (s : string) : option Z :=
  let s1 := trimStart s in
  let '(neg, s2) :=
    match s1 with
    | String "-"%char r => (true, r)
    | String "+"%char r => (false, r)
    | _ => (false, s1)
    end in
  let '(radix, s3) :=
    match s2 with
    | String "0"%char (String "x"%char r) => (16, r)
    | String "0"%char (String "X"%char r) => (16, r)
    | _ => (10, s2)
    end in
  match digits radix None s3 with
  | None => None
  | Some v => Some (if neg then - v else v)
  end.

(** [parseInt(params[i])]: a missing argument is [undefined], which
    [parseInt] reads as the text "undefined". *)
Definition parseIntArg (a : option string) : option Z :=
  match a with
  | Some s => parseInt s
  | None => None
  end.

(** [String(n)] for an integer that is an exact number. *)
Definition showZ (n : Z) : string := NilZero.string_of_int (Z.to_int n).

(** [xs.join(sep)] *)
Fixpoint join (sep : string) (xs : list string) : string :=
  match xs with
  | [] => ""
  | [x] => x
  | x :: r => x ++ sep ++ join sep r
  end.

(** [s.split(c)] for a separator of one character: never empty. *)
Fixpoint split (c : ascii) (s : string) : list string :=
  match s with
  | EmptyString => [""]
  | String d r =>
      if Ascii.eqb d c then "" :: split c r
      else match split c r with
           | [] => [String d ""]
           | w :: ws => String d w :: ws
           end
  end.

Definition lowerChar (c : ascii) : ascii :=
  if between 65 90 c then ascii_of_nat (nat_of_ascii c + 32) else c.

(** [s.toLowerCase()] on the ASCII letters.  No character outside ASCII
    lowers to one of the letters of "yes" or "no", the only texts the
    program compares a lowered string with. *)
Fixpoint toLowerCase (s : string) : string :=
  match s with
  | EmptyString => EmptyString
  | String c r => String (lowerChar c) (toLowerCase r)
  end.

(** [s.startsWith(c)] *)
Definition startsWith (c : ascii) (s : string) : bool :=
  match s with
  | String d _ => Ascii.eqb d c
  | EmptyString => false
  end.

(** [s.slice(1)] *)
Definition slice1 (s : string) : string :=
  match s with
  | String _ r => r
  | EmptyString => EmptyString
  end.

(** Truthiness of a string that may be [undefined]. *)
Definition truthyStr (a : option string) : bool :=
  match a with
  | Some EmptyString | None => false
  | Some _ => true
  end.

(** [Math.floor(Math.random() * n)], from the raw draw [r] of the random
    source: any index below [n], and 0 when [n] is 0. *)
Definition randomIndex (r n : nat) : nat :=
  match n with
  | O => O
  | _ => Nat.modulo r n
  end.

(** [xs.map((x, i) => f x i)] *)
Fixpoint mapi_from {A B} (f : A -> nat -> B) (i : nat) (xs : list A) : list B :=
  match xs with
  | [] => []
  | x :: r => f x i :: mapi_from f (S i) r
  end.

Definition mapi {A B} (f : A -> nat -> B) (xs : list A) : list B :=
  mapi_from f 0 xs.

(** [xs.filter(x => x !== null)] after a [map] that yields [null] for the
    dropped entries. *)
Fixpoint dropNull {A} (xs : list (option A)) : list A :=
  match xs with
  | [] => []
  | Some x :: r => x :: dropNull r
  | None :: r => dropNull r
  end.

End JS.

(** What a rejected promise or a thrown exception carries. *)
Inductive JsError :=
| TypeError (msg : string)
| ApiError (status : Z)
| NetworkError
| PlainError.

Inductive Outcome (A : Type) :=
| Val (a : A)
| Exn (e : JsError).
Arguments Val {A} a.
Arguments Exn {A} e.

(* ================================================================= *)
(** ** The subscriber store *)

Record User := mkUser {
  active : bool;
  sendIntervals : list Z;
  lessonWeights : list Z;
  messageCount : Z;
  endTime : option Z;
  nextSendTime : option Z;
  currentIntervalIndex : option Z
}.

(** [db.users]: the properties of a JavaScript object, in insertion order
    (the order of keys that are not array indices, as phone numbers with
    their [+] are). *)
Definition DB := list (string * User).

(** [db.users[phoneNumber]] *)
Fixpoint lookup (p : string) (db : DB) : option User :=
  match db with
  | [] => None
  | (k, u) :: r => if String.eqb k p then Some u else lookup p r
  end.

(** [db.users[phoneNumber] = u]: an existing property keeps its place, a
    new one goes last. *)
Fixpoint store (p : string) (u : User) (db : DB) : DB :=
  match db with
  | [] => [(p, u)]
  | (k, v) :: r => if String.eqb k p then (k, u) :: r else (k, v) :: store p u r
  end.

Definition set_active (b : bool) (u : User) : User :=
  mkUser b (sendIntervals u) (lessonWeights u) (messageCount u)
         (endTime u) (nextSendTime u) (currentIntervalIndex u).

Definition set_endTime (e : option Z) (u : User) : User :=
  mkUser (active u) (sendIntervals u) (lessonWeights u) (messageCount u)
         e (nextSendTime u) (currentIntervalIndex u).

Definition set_sendIntervals (l : list Z) (u : User) : User :=
  mkUser (active u) l (lessonWeights u) (messageCount u)
         (endTime u) (nextSendTime u) (currentIntervalIndex u).

Definition set_currentIntervalIndex (i : option Z) (u : User) : User :=
  mkUser (active u) (sendIntervals u) (lessonWeights u) (messageCount u)
         (endTime u) (nextSendTime u) i.

Definition set_lessonWeights (l : list Z) (u : User) : User :=
  mkUser (active u) (sendIntervals u) l (messageCount u)
         (endTime u) (nextSendTime u) (currentIntervalIndex u).

Definition set_nextSendTime (t : option Z) (u : User) : User :=
  mkUser (active u) (sendIntervals u) (lessonWeights u) (messageCount u)
         (endTime u) t (currentIntervalIndex u).

Definition set_messageCount (n : Z) (u : User) : User :=
  mkUser (active u) (sendIntervals u) (lessonWeights u) n
         (endTime u) (nextSendTime u) (currentIntervalIndex u).

(** [db.users[phoneNumber].field = v]: a [TypeError] when the record is
    absent, in the words of V8. *)
Definition update (p field : string) (f : User -> User) (db : DB)
    : Outcome DB :=
  match lookup p db with
  | Some u => Val (store p (f u) db)
  | None =>
      Exn (TypeError ("Cannot set properties of undefined (setting '"
                        ++ field ++ "')"))
  end.

(** [db.users[phoneNumber].field]: a [TypeError] when the record is
    absent. *)
Definition read (p field : string) (db : DB) : Outcome User :=
  match lookup p db with
  | Some u => Val u
  | None =>
      Exn (TypeError ("Cannot read properties of undefined (reading '"
                        ++ field ++ "')"))
  end.

Definition hour : Z := 3600000.

(* ================================================================= *)
(** ** Command handlers

    Each handler takes the store as [readDatabase] returns it and gives the
    reply together with the store as [writeDatabase] leaves it; [Exn] is a
    rejected promise, raised before anything was written. *)

Definition started : string :=
  "Service started! You'll receive Hoon Academy nuggets hourly.".

(** [Date.now()] is read twice; both readings are [now].  The end time is
    the one that the program stores as long as it is an exact number. *)
Definition handleBegin (now : Z) (phoneNumber : string) (params : list string)
    (db : DB) : Outcome (string * DB) :=
  let hours :=
    if JS.truthyStr (nth_error params 0)
    then JS.parseIntArg (nth_error params 0) else None in
  let u := {|
    active := true;
    sendIntervals := [hour];
    lessonWeights := repeat 1 9;
    messageCount := 0;
    endTime := match hours with
               | Some h => if h =? 0 then None else Some (now + h * hour)
               | None => None
               end;
    nextSendTime := Some now;
    currentIntervalIndex := Some 0 |} in
  Val (started, store phoneNumber u db).

Definition badHours : string := "Please specify a valid number of hours.".
Definition stopped : string := "Service stopped. Text :begin to start again.".

Definition handleStop (now : Z) (phoneNumber : string) (params : list string)
    (db : DB) : Outcome (string * DB) :=
  match nth_error params 0 with
  | Some kw =>
      if String.eqb kw "in" || String.eqb kw "for" then
        match JS.parseIntArg (nth_error params 1) with
        | Some hours =>
            if 0 <? hours then
              match update phoneNumber "endTime"
                      (set_endTime (Some (now + hours * hour))) db with
              | Val db' =>
                  Val ("Service will stop in " ++ JS.showZ hours ++ " hours.",
                       db')
              | Exn e => Exn e
              end
            else Val (badHours, db)
        | None => Val (badHours, db)
        end
      else
        match update phoneNumber "active" (set_active false) db with
        | Val db' => Val (stopped, db')
        | Exn e => Exn e
        end
  | None =>
      match update phoneNumber "active" (set_active false) db with
      | Val db' => Val (stopped, db')
      | Exn e => Exn e
      end
  end.

(** The callback of [params.map] in [handleSync]: [None] is its [throw]. *)
Definition syncHours (p : string) : option Z :=
  match JS.parseInt p with
  | Some hours =>
      if (hours <? 1) || (72 <? hours) then None else Some (hours * hour)
  | None => None
  end.

(** [params.map(f)] where [f] may throw: the first throw ends the map. *)
Fixpoint mapThrow {A B} (f : A -> option B) (xs : list A) : option (list B) :=
  match xs with
  | [] => Some []
  | x :: r =>
      match f x with
      | None => None
      | Some y =>
          match mapThrow f r with
          | None => None
          | Some ys => Some (y :: ys)
          end
      end
  end.

Definition badIntervals : string :=
  "Please provide valid intervals between 1-72 hours, e.g., ':sync 1 2 4'".

(** The whole body is inside [try]: the [catch] also takes the [TypeError]
    of an absent record. *)
Definition handleSync (phoneNumber : string) (params : list string)
    (db : DB) : Outcome (string * DB) :=
  match mapThrow syncHours params with
  | None => Val (badIntervals, db)
  | Some intervals =>
      match update phoneNumber "sendIntervals"
              (set_sendIntervals intervals) db with
      | Exn _ => Val (badIntervals, db)
      | Val db1 =>
          match update phoneNumber "currentIntervalIndex"
                  (set_currentIntervalIndex (Some 0)) db1 with
          | Exn _ => Val (badIntervals, db)
          | Val db2 =>
              Val ("Messages will now be sent with intervals: "
                     ++ JS.join ", " params ++ " hours", db2)
          end
      end
  end.

Definition badFactor : string := "Please specify a number between 0 and 30.".

(** The right-hand side of the assignment is evaluated first: for an
    absent record it is the reading of [sendIntervals] that throws.  The
    products are those of the program as long as they are exact
    numbers. *)
Definition handleSlow (phoneNumber : string) (params : list string)
    (db : DB) : Outcome (string * DB) :=
  match JS.parseIntArg (nth_error params 0) with
  | Some factor =>
      if (0 <=? factor) && (factor <=? 30) then
        match read phoneNumber "sendIntervals" db with
        | Exn e => Exn e
        | Val u =>
            match update phoneNumber "sendIntervals"
                    (set_sendIntervals
                       (map (fun interval => interval * (1 + factor))
                            (sendIntervals u))) db with
            | Exn e => Exn e
            | Val db' =>
                Val ("Message intervals have been increased by "
                       ++ JS.showZ factor ++ "x.", db')
            end
        end
      else Val (badFactor, db)
  | None => Val (badFactor, db)
  end.

(** The callback of [params.map] in [handleLessons]. *)
Definition lessonNumber (p : string) : option Z :=
  match JS.parseInt p with
  | Some num => if (num <? 0) || (8 <? num) then None else Some num
  | None => None
  end.

(** [weights[i] = v] on an array; the handler only writes inside it. *)
Fixpoint setAt (i : nat) (v : Z) (xs : list Z) : list Z :=
  match xs, i with
  | [], _ => []
  | _ :: r, O => v :: r
  | x :: r, S j => x :: setAt j v r
  end.

(** The indices whose weight is 1, as [handleLessons] and the status route
    compute them. *)
Definition activeIndices (weights : list Z) : list Z :=
  JS.dropNull
    (JS.mapi (fun w i => if w =? 1 then Some (Z.of_nat i) else None) weights).

Definition badLessons : string :=
  "Please provide valid lesson numbers between 0-8, e.g., ':lessons 1' or ':lessons 1 2 3'".

Definition handleLessons (phoneNumber : string) (params : list string)
    (db : DB) : Outcome (string * DB) :=
  match mapThrow lessonNumber params with
  | None => Val (badLessons, db)
  | Some selections =>
      let weights :=
        fold_left (fun ws lessonNum => setAt (Z.to_nat lessonNum) 1 ws)
                  selections (repeat 0 9) in
      match update phoneNumber "lessonWeights"
              (set_lessonWeights weights) db with
      | Exn _ => Val (badLessons, db)
      | Val db' =>
          Val ("Now sending content from lessons: "
                 ++ JS.join ", " (map JS.showZ (activeIndices weights)), db')
      end
  end.

(* ================================================================= *)
(** ** Effects: the random source, the content API and the gateway

    What the outside world answers is an [Env]: the k-th draw of
    [Math.random], the k-th answer of the content API and the k-th verdict
    of the delivery gateway.  [Calls] counts the calls made so far; every
    call to the outside is recorded as an [Event].  Console output is not
    recorded. *)

(** One entry of [contents.contents]. *)
Inductive Item :=
| NotAnObject                          (* [null]: reading a property throws *)
| Block (content_html : option string) (* [None]: absent or [null] *).

Inductive Reply :=
| Unreachable                               (* [fetch] rejects *)
| Http (status : Z) (contents : option (list Item))
    (* [None]: the body is not JSON, [res.json()] rejects *)
| HttpNoContents (status : Z).
    (* the body is JSON, a value without a [contents] property *)

(** What [res.json()] gives, as far as the fetcher looks at it. *)
Inductive Json :=
| NotJson
| NoContents
| Contents (contents : list Item).

Record Env := mkEnv {
  random : nat -> nat;
  remote : nat -> string -> Reply;
  gateway : nat -> string -> string -> bool;
  BASE_URL : string
}.

Record Calls := mkCalls {
  randoms : nat;
  fetches : nat;
  sends : nat
}.

Inductive Event :=
| Requested (url : string)
| Created (to body : string) (delivered : bool).

(** A computation over a mutable state [S] that may throw and that records
    its calls; the state survives a throw, as a mutated object does. *)
Definition M (S A : Type) : Type := S -> Outcome A * S * list Event.

Definition ret {S A} (a : A) : M S A := fun s => (Val a, s, []).

Definition throw {S A} (e : JsError) : M S A := fun s => (Exn e, s, []).

Definition bind {S A B} (m : M S A) (k : A -> M S B) : M S B :=
  fun s =>
    match m s with
    | (Val a, s1, ev1) =>
        let '(r, s2, ev2) := k a s1 in (r, s2, (ev1 ++ ev2)%list)
    | (Exn e, s1, ev1) => (Exn e, s1, ev1)
    end.

(** [try { m } catch (error) { h error }] *)
Definition tryCatch {S A} (m : M S A) (h : JsError -> M S A) : M S A :=
  fun s =>
    match m s with
    | (Val a, s1, ev1) => (Val a, s1, ev1)
    | (Exn e, s1, ev1) =>
        let '(r, s2, ev2) := h e s1 in (r, s2, (ev1 ++ ev2)%list)
    end.

Definition modify {S} (f : S -> S) : M S unit := fun s => (Val tt, f s, []).

Declare Scope js_scope.
Delimit Scope js_scope with js.
Notation "x <- m ;; k" := (bind m (fun x => k))
  (at level 61, m at next level, right associativity) : js_scope.
Notation "m ;;; k" := (bind m (fun _ => k))
  (at level 61, right associativity) : js_scope.
Open Scope js_scope.

(** [Math.floor(Math.random() * n)] *)
Definition mathRandomIndex (E : Env) (n : nat) : M Calls nat :=
  fun c =>
    (Val (JS.randomIndex (random E (randoms c)) n),
     mkCalls (S (randoms c)) (fetches c) (sends c), []).

(** [await fetch(url)] *)
Definition fetch (E : Env) (url : string) : M Calls (Z * Json) :=
  fun c =>
    let c' := mkCalls (randoms c) (S (fetches c)) (sends c) in
    match remote E (fetches c) url with
    | Unreachable => (Exn NetworkError, c', [Requested url])
    | Http status (Some contents) =>
        (Val (status, Contents contents), c', [Requested url])
    | Http status None => (Val (status, NotJson), c', [Requested url])
    | HttpNoContents status =>
        (Val (status, NoContents), c', [Requested url])
    end.

(** [await client.messages.create({ body, to, from: twilioNumber })] *)
Definition create (E : Env) (to body : string) : M Calls unit :=
  fun c =>
    let c' := mkCalls (randoms c) (fetches c) (S (sends c)) in
    if gateway E (sends c) to body
    then (Val tt, c', [Created to body true])
    else (Exn PlainError, c', [Created to body false]).

(* ================================================================= *)
(** ** Base64, as [Buffer] writes and reads it *)

Module Base64.

Definition alphabet : string :=
  "ABCDEFGHIJKLMNOPQRSTUVWXYZabcdefghijklmnopqrstuvwxyz0123456789+/".

(** The character of a sextet. *)
Definition char (n : Z) : ascii :=
  match String.get (Z.to_nat n) alphabet with
  | Some c => c
  | None => "="%char
  end.

Definition byte (n : Z) : ascii := ascii_of_nat (Z.to_nat n).

(** [Buffer.from(html).toString('base64')] *)
Fixpoint encode (s : string) : string :=
  match s with
  | EmptyString => EmptyString
  | String a EmptyString =>
      let a := JS.code a in
      String (char (Z.shiftr a 2))
        (String (char (Z.shiftl (Z.land a 3) 4)) "==")
  | String a (String b EmptyString) =>
      let a := JS.code a in
      let b := JS.code b in
      String (char (Z.shiftr a 2))
        (String (char (Z.lor (Z.shiftl (Z.land a 3) 4) (Z.shiftr b 4)))
           (String (char (Z.shiftl (Z.land b 15) 2)) "="))
  | String a (String b (String c r)) =>
      let a := JS.code a in
      let b := JS.code b in
      let c := JS.code c in
      String (char (Z.shiftr a 2))
        (String (char (Z.lor (Z.shiftl (Z.land a 3) 4) (Z.shiftr b 4)))
           (String (char (Z.lor (Z.shiftl (Z.land b 15) 2) (Z.shiftr c 6)))
              (String (char (Z.land c 63)) (encode r))))
  end.

(** The sextet of a character, in the standard or the URL-safe alphabet. *)
Definition unbase64 (c : ascii) : option Z :=
  if JS.between 65 90 c then Some (JS.code c - 65)
  else if JS.between 97 122 c then Some (JS.code c - 71)
  else if JS.between 48 57 c then Some (JS.code c + 4)
  else if JS.isCode 43 c || JS.isCode 45 c then Some 62
  else if JS.isCode 47 c || JS.isCode 95 c then Some 63
  else None.

(** The decoder is forgiving: it stops at the first [=] and skips every
    other character that is not in the alphabet. *)
Fixpoint sextets (s : string) : list Z :=
  match s with
  | EmptyString => []
  | String c r =>
      match unbase64 c with
      | Some v => v :: sextets r
      | None => if JS.isCode 61 c then [] else sextets r
      end
  end.

Fixpoint bytes (l : list Z) : string :=
  match l with
  | a :: b :: c :: d :: r =>
      String (byte (Z.lor (Z.shiftl a 2) (Z.shiftr b 4)))
        (String (byte (Z.lor (Z.shiftl (Z.land b 15) 4) (Z.shiftr c 2)))
           (String (byte (Z.lor (Z.shiftl (Z.land c 3) 6) d)) (bytes r)))
  | [a; b; c] =>
      String (byte (Z.lor (Z.shiftl a 2) (Z.shiftr b 4)))
        (String (byte (Z.lor (Z.shiftl (Z.land b 15) 4) (Z.shiftr c 2))) "")
  | [a; b] => String (byte (Z.lor (Z.shiftl a 2) (Z.shiftr b 4))) ""
  | _ => EmptyString
  end.

(** [Buffer.from(text, 'base64')]: it never throws. *)
Definition decode (s : string) : string := bytes (sextets s).

End Base64.

(* ================================================================= *)
(** ** The content fetcher *)

Definition channels : list string :=
  [ "hoon-academy-0"; "hoon-academy-1"; "hoon-academy-2";
    "hoon-academy-3"; "hoon-academy-4"; "hoon-academy-5";
    "hoon-academy-6"; "hoon-academy-7"; "hoon-academy-8" ].

Record Content := mkContent {
  html : string;
  url : string
}.

(** The channels of the weights that are 1.  An entry is [None] where
    [channels[index]] is [undefined], which [filter] keeps. *)
Definition activeChannels (lessonWeights : list Z) : list (option string) :=
  JS.dropNull
    (JS.mapi (fun weight index =>
                if weight =? 1 then Some (nth_error channels index) else None)
             lessonWeights).

(** The text a template literal gives a channel. *)
Definition showChannel (ch : option string) : string :=
  match ch with
  | Some name => name
  | None => "undefined"
  end.

Definition channelUrl (selectedChannel : option string) : string :=
  "https://api.are.na/v2/channels/" ++ showChannel selectedChannel
    ++ "/contents".

(** [content.content_html || 'No content available'] *)
Definition payload (content_html : option string) : string :=
  match content_html with
  | Some EmptyString | None => "No content available"
  | Some h => h
  end.

Definition contentPath (encodedHtml : string) : string :=
  "/content/" ++ encodedHtml.

Definition maxRetries : nat := 10.

(** The [try] block of [fetchWithRetry].  [retry] is the call
    [fetchWithRetry(retryCount + 1, maxRetries)] when
    [retryCount < maxRetries], and [None] otherwise.  The block answers
    [inr k] where it says [return fetchWithRetry(...)]: the call [k] is made
    once the block is left, so that its [catch] does not see what [k]
    throws. *)
Definition attempt (E : Env) (lessonWeights : list Z)
    (retry : option (M Calls Content))
    : M Calls (Content + M Calls Content) :=
  let selectable := activeChannels lessonWeights in
  i <- mathRandomIndex E (List.length selectable) ;;
  let selectedChannel :=
    match nth_error selectable i with
    | Some ch => ch
    | None => None
    end in
  res <- fetch E (channelUrl selectedChannel) ;;
  let '(status, body) := res in
  if (200 <=? status) && (status <=? 299) then
    match body with
    | NotJson => throw (TypeError "invalid json response body")
    | NoContents =>
        (* [Math.random()] is called before [contents.contents.length]
           is read, which throws *)
        mathRandomIndex E 0 ;;;
        throw (TypeError
                 "Cannot read properties of undefined (reading 'length')")
    | Contents contents =>
        j <- mathRandomIndex E (List.length contents) ;;
        match nth_error contents j with
        | Some (Block content_html) =>
            let html := payload content_html in
            let encodedHtml := Base64.encode html in
            ret (inl (mkContent html (BASE_URL E ++ contentPath encodedHtml)))
        | Some NotAnObject | None =>
            throw (TypeError "Cannot read properties of undefined")
        end
    end
  else
    match status =? 404, retry with
    | true, Some k => ret (inr k)
    | _, _ => throw (ApiError status)
    end.

(** [fetchWithRetry(retryCount, maxRetries)], by recursion on
    [retriesLeft = maxRetries - retryCount]: [retryCount < maxRetries] is
    [retriesLeft <> 0]. *)
Fixpoint fetchWithRetry (E : Env) (lessonWeights : list Z)
    (retriesLeft : nat) : M Calls Content :=
  let retry :=
    match retriesLeft with
    | O => None
    | S n => Some (fetchWithRetry E lessonWeights n)
    end in
  r <- tryCatch (attempt E lessonWeights retry)
         (fun error =>
            match retry with
            | Some k => ret (inr k)
            | None => throw error
            end) ;;
  match r with
  | inl content => ret content
  | inr k => k
  end.

Definition fetchArenaContent (E : Env) (lessonWeights : list Z)
    : M Calls Content :=
  fetchWithRetry E lessonWeights maxRetries.

(* ================================================================= *)
(** ** The HTTP routes *)

Inductive Response :=
| NoRoute                           (* no route matches: the framework's 404 *)
| Escaped                           (* a percent escape: not modelled *)
| Json400                           (* validatePhoneNumber's refusal *)
| Json404                           (* "Phone number not found" *)
| Html (body : string)              (* [res.send(html)] *)
| Status (isActive : bool) (count : Z) (nextMessageIn : Z)
         (activeLessons : list Z).

Fixpoint contains (c : ascii) (s : string) : bool :=
  match s with
  | EmptyString => false
  | String d r => Ascii.eqb d c || contains c r
  end.

(** What the route ['/content/:html'] makes of a request path. *)
Inductive Match :=
| NoMatch
| PercentEscape
| Param (value : string).

(** The path matches when, after the fixed part, compared without regard
    to case, comes one segment that is not empty, and at most one [/]
    after it.  The parameter is the segment after [decodeURIComponent],
    which changes nothing in a segment without percent escape; what it
    makes of an escape is not modelled. *)
Definition contentParam (path : string) : Match :=
  if String.eqb (JS.toLowerCase (substring 0 9 path)) "/content/" then
    match JS.split "/" (substring 9 (String.length path - 9) path) with
    | [seg] | [seg; EmptyString] =>
        match seg with
        | EmptyString => NoMatch
        | _ => if contains "%" seg then PercentEscape else Param seg
        end
    | _ => NoMatch
    end
  else NoMatch.

(** [app.get('/content/:html', ...)].  [Buffer.from(_, 'base64')] does not
    throw, so the [catch] is never entered.  [toString] and [res.send]
    carry bytes that are UTF-8 unchanged, as the bytes of every payload
    are.  Where the bytes are not UTF-8, which happens for a base64 text
    that was cut, [toString] puts U+FFFD in the place of what is broken:
    the embedding does not follow that replacement, and [Html] then holds
    the bytes as they were decoded. *)
Definition getContent (path : string) : Response :=
  match contentParam path with
  | Param param => Html (Base64.decode param)
  | PercentEscape => Escaped
  | NoMatch => NoRoute
  end.

Fixpoint allDigits (s : string) : bool :=
  match s with
  | EmptyString => true
  | String c r => JS.between 48 57 c && allDigits r
  end.

(** [/^\+\d+$/.test(s)] *)
Definition plusDigits (s : string) : bool :=
  match s with
  | String "+"%char (String c r) => allDigits (String c r)
  | _ => false
  end.

(** The test of [validatePhoneNumber], on [req.body.phoneNumber]; [true]
    lets the request through. *)
Definition validatePhoneNumber (bodyPhoneNumber : option string) : bool :=
  match bodyPhoneNumber with
  | None | Some EmptyString => false
  | Some phoneNumber => JS.startsWith "+" phoneNumber && plusDigits phoneNumber
  end.

(** A request to ['/status/:phoneNumber']: the parameter of the path and
    the [phoneNumber] property of the body, if the request has one. *)
Record StatusRequest := mkStatusRequest {
  paramPhoneNumber : string;
  bodyPhoneNumber : option string
}.

(** [router.get('/status/:phoneNumber', validatePhoneNumber, ...)] *)
Definition getStatus (now : Z) (req : StatusRequest) (db : DB) : Response :=
  if validatePhoneNumber (bodyPhoneNumber req) then
    match lookup (paramPhoneNumber req) db with
    | None => Json404
    | Some user =>
        Status (active user) (messageCount user)
          (Z.max 0 (match nextSendTime user with Some t => t | None => 0 end
                    - now))
          (activeIndices (lessonWeights user))
    end
  else Json400.

Definition HELP_MESSAGE : string :=
"
Available commands:
:begin - Start receiving messages
:begin [hours] - Start for specific duration
:stop - Stop messages
:stop in/for [hours] - Schedule stop
:sync [hours...] - Set staggered message intervals
:slow [0-30] - Reduce message frequency
:lessons [numbers] - Select which lessons to receive (0-8)
:help - Show this message

Examples:
:sync 1 2 4 - Send messages every 1, then 2, then 4 hours
:lessons 1 2 - Only receive content from lessons 1 and 2
:lessons 0 - Only receive content from lesson 0
".

Definition unknownCommand : string :=
  "Unknown command. Text :help for available commands.".

Definition reduced : string := "Message frequency has been reduced by half.".
Definition continuing : string := "Continuing with current frequency.".

(** The [switch] of the [/sms] route. *)
Definition handleCommand (now : Z) (phoneNumber command : string)
    (params : list string) (db : DB) : Outcome (string * DB) :=
  if String.eqb command "begin" then handleBegin now phoneNumber params db
  else if String.eqb command "stop" then handleStop now phoneNumber params db
  else if String.eqb command "sync" then handleSync phoneNumber params db
  else if String.eqb command "slow" then handleSlow phoneNumber params db
  else if String.eqb command "lessons" then handleLessons phoneNumber params db
  else if String.eqb command "help" then Val (HELP_MESSAGE, db)
  else Val (unknownCommand, db).

(** [app.post('/sms', ...)]: the message of the TwiML answer, [None] when
    the answer carries no message, and the store afterwards.  [Exn] is the
    rejection of the route's promise: no answer is written.  The doubled
    intervals are those of the program as long as they are exact
    numbers. *)
Definition sms (now : Z) (message phoneNumber : string) (db : DB)
    : Outcome (option string * DB) :=
  let lower := JS.toLowerCase message in
  if String.eqb lower "yes" || String.eqb lower "no" then
    match lookup phoneNumber db with
    | Some user =>
        if 100 <=? messageCount user then
          if String.eqb lower "yes" then
            Val (Some reduced,
                 store phoneNumber
                   (set_sendIntervals
                      (map (fun interval => interval * 2) (sendIntervals user))
                      user) db)
          else Val (Some continuing, db)
        else Val (None, db)
    | None => Val (None, db)
    end
  else if JS.startsWith ":" message then
    match JS.split " " (JS.slice1 message) with
    | command :: params =>
        match handleCommand now phoneNumber command params db with
        | Val (response, db') => Val (Some response, db')
        | Exn e => Exn e
        end
    | [] => Val (Some unknownCommand, db)
    end
  else Val (Some unknownCommand, db).

(* ================================================================= *)
(** ** The dispatch tick *)

(** [user.endTime && now > user.endTime] *)
Definition expired (now : Z) (user : User) : bool :=
  match endTime user with
  | Some e => negb (e =? 0) && (e <? now)
  | None => false
  end.

(** [now >= user.nextSendTime]; a [null] compares as 0. *)
Definition due (now : Z) (user : User) : bool :=
  match nextSendTime user with
  | Some t => t <=? now
  | None => 0 <=? now
  end.

(** [user.sendIntervals[user.currentIntervalIndex]] *)
Definition currentInterval (user : User) : option Z :=
  match currentIntervalIndex user with
  | Some i => if i <? 0 then None else nth_error (sendIntervals user) (Z.to_nat i)
  | None => None
  end.

(** [(user.currentIntervalIndex + 1) % user.sendIntervals.length]; the
    remainder has the sign of the dividend and is [NaN] for a length 0. *)
Definition nextIndex (user : User) : option Z :=
  let len := Z.of_nat (List.length (sendIntervals user)) in
  let i := match currentIntervalIndex user with Some i => i | None => 0 end in
  if len =? 0 then None else Some (Z.rem (i + 1) len).

(** The four assignments after a successful send. *)
Definition advance (now : Z) (user : User) : User :=
  let interval := currentInterval user in
  let user1 := set_currentIntervalIndex (nextIndex user) user in
  let user2 :=
    set_nextSendTime
      (match interval with Some d => Some (now + d) | None => None end) user1 in
  set_messageCount (messageCount user2 + 1) user2.

Definition nugget (url : string) : string :=
  "Here's your Hoon Academy nugget: " ++ url.

Definition slowDownPrompt : string :=
  "You've gotten 100 tid bits of knowledge, want to slow down? respond with yes or no".

(** A computation on the calls alone, run where the user is in scope. *)
Definition onCalls {A} (m : M Calls A) : M (User * Calls) A :=
  fun s =>
    let '(r, c, ev) := m (snd s) in (r, (fst s, c), ev).

Definition getUser : M (User * Calls) User :=
  fun s => (Val (fst s), s, []).

Definition setUser (f : User -> User) : M (User * Calls) unit :=
  modify (fun s => (f (fst s), snd s)).

(** The body of the [for] loop of [sendScheduledMessages], on the object
    [user], which it mutates. *)
Definition visit (E : Env) (now : Z) (phoneNumber : string)
    : M (User * Calls) unit :=
  user <- getUser ;;
  if negb (active user) || expired now user then
    setUser (set_active false)
  else if due now user then
    tryCatch
      (content <- onCalls (fetchArenaContent E (lessonWeights user)) ;;
       onCalls (create E phoneNumber (nugget (url content))) ;;;
       setUser (advance now) ;;;
       user' <- getUser ;;
       if messageCount user' =? 100
       then onCalls (create E phoneNumber slowDownPrompt)
       else ret tt)
      (fun error => ret tt)
  else ret tt.

(** The loop over [Object.entries(db.users)]; a throw that leaves the body
    ends the loop. *)
Fixpoint scan (E : Env) (now : Z) (entries : DB) : M Calls DB :=
  match entries with
  | [] => ret []
  | (phoneNumber, user) :: rest =>
      fun c =>
        match visit E now phoneNumber (user, c) with
        | (Val _, (user', c1), ev1) =>
            match scan E now rest c1 with
            | (Val rest', c2, ev2) =>
                (Val ((phoneNumber, user') :: rest'), c2, (ev1 ++ ev2)%list)
            | (Exn e, c2, ev2) => (Exn e, c2, (ev1 ++ ev2)%list)
            end
        | (Exn e, (_, c1), ev1) => (Exn e, c1, ev1)
        end
  end.

(** One tick: the store as [writeDatabase] leaves it, the calls made and
    how the tick ended.  A tick that throws never reaches
    [writeDatabase]. *)
Definition sendScheduledMessages (E : Env) (now : Z) (db : DB) (c : Calls)
    : Outcome unit * DB * Calls * list Event :=
  match scan E now db c with
  | (Val db', c', ev) => (Val tt, db', c', ev)
  | (Exn e, c', ev) => (Exn e, db, c', ev)
  end.

(** [setInterval(sendScheduledMessages, 60000)]: the ticks run one after
    the other, each on the store that the one before it wrote; [times] are
    their readings of [Date.now()].  The timer drops what a tick
    returns. *)
Fixpoint ticks (E : Env) (times : list Z) (db : DB) (c : Calls)
    : DB * Calls * list Event :=
  match times with
  | [] => (db, c, [])
  | now :: rest =>
      let '(_, db1, c1, ev1) := sendScheduledMessages E now db c in
      let '(db2, c2, ev2) := ticks E rest db1 c1 in
      (db2, c2, (ev1 ++ ev2)%list)
  end.

(* ================================================================= *)
(** ** The signup route *)

Definition welcomeMessage : string :=
"howdy, welcome to hoon bot

text us with a command to program us to return May ‘24 hoon academy nuggets, timely

the default is all the sessions (0-8), hourly 

Available commands:

      :begin - Start receiving messages
      :begin [hours] - Start for specific duration
      :stop - Stop messages
      :stop in/for [hours] - Schedule stop
      :sync [hours...] - Set hourly message intervals, e.g. :sync 1 2 1 
      :slow [0-30] - Reduce message frequency
      :lessons [numbers] - Select which lessons to receive (0-8)
      :help - Show this message

      Your first nugget will arrive shortly!".

Definition firstNugget (url : string) : string :=
  "Here's your first Hoon Academy nugget: " ++ url.

(** The record that the signup route stores: it has no [endTime]. *)
Definition newcomer (now : Z) : User :=
  {| active := true;
     sendIntervals := [hour];
     lessonWeights := repeat 1 9;
     messageCount := 0;
     endTime := None;
     nextSendTime := Some now;
     currentIntervalIndex := Some 0 |}.

Inductive SignupResponse :=
| Signup400     (* validatePhoneNumber's refusal *)
| Signup409     (* "This phone number is already registered" *)
| Signup500     (* "Failed to complete signup. Please try again." *)
| Signup200 (phoneNumber : string)
                (* "Signup successful! Welcome messages sent." *).

(** What the route does once the record is written: the welcome message,
    the fetch for the weights of the new record, the first nugget. *)
Definition welcome (E : Env) (now : Z) (phoneNumber : string)
    : M Calls unit :=
  create E phoneNumber welcomeMessage ;;;
  content <- fetchArenaContent E (lessonWeights (newcomer now)) ;;
  create E phoneNumber (firstNugget (url content)).

(** [router.post('/signup', validatePhoneNumber, ...)], on
    [req.body.phoneNumber]: the answer, the store as the route leaves it,
    the calls made.  The record is written before any message is sent, and
    the [catch] answers 500 for whatever is thrown after that. *)
Definition signup (E : Env) (now : Z) (bodyPhoneNumber : option string)
    (db : DB) (c : Calls) : SignupResponse * DB * Calls * list Event :=
  match bodyPhoneNumber with
  | None => (Signup400, db, c, [])
  | Some phoneNumber =>
      if validatePhoneNumber bodyPhoneNumber then
        match lookup phoneNumber db with
        | Some _ => (Signup409, db, c, [])
        | None =>
            let db' := store phoneNumber (newcomer now) db in
            match welcome E now phoneNumber c with
            | (Val _, c', ev) => (Signup200 phoneNumber, db', c', ev)
            | (Exn _, c', ev) => (Signup500, db', c', ev)
            end
        end
      else (Signup400, db, c, [])
  end.

(* ================================================================= *)
(** ** Notions the properties are stated with *)

(** The state invariant of a subscriber: a cadence that is not empty, made
    of positive durations, and an index inside it. *)
Definition wellFormed (user : User) : Prop :=
  sendIntervals user <> []
  /\ Forall (fun interval => 0 < interval) (sendIntervals user)
  /\ exists i, currentIntervalIndex user = Some i
               /\ 0 <= i < Z.of_nat (List.length (sendIntervals user)).

(** A nugget handed to the gateway for [phoneNumber], and accepted. *)
Definition isNugget (phoneNumber : string) (e : Event) : bool :=
  match e with
  | Created to body true =>
      String.eqb to phoneNumber
      && String.prefix "Here's your Hoon Academy nugget: " body
  | _ => false
  end.

Definition delivered (phoneNumber : string) (ev : list Event) : bool :=
  existsb (isNugget phoneNumber) ev.

(** The slow-down prompt handed to the gateway for [phoneNumber]. *)
Definition isPrompt (phoneNumber : string) (e : Event) : bool :=
  match e with
  | Created to body _ =>
      String.eqb to phoneNumber && String.eqb body slowDownPrompt
  | Requested _ => false
  end.

Definition prompts (phoneNumber : string) (ev : list Event) : nat :=
  List.length (filter (isPrompt phoneNumber) ev).

(** Successive successful dispatches to one subscriber: each step is a
    visit of the tick, at its time and with the calls made so far, that
    delivers a nugget.  [None] when a step delivers nothing. *)
Fixpoint dispatches (E : Env) (phoneNumber : string)
    (steps : list (Z * Calls)) (user : User) : option User :=
  match steps with
  | [] => Some user
  | (now, c) :: rest =>
      match visit E now phoneNumber (user, c) with
      | (Val _, (user', _), ev) =>
          if delivered phoneNumber ev
          then dispatches E phoneNumber rest user'
          else None
      | (Exn _, _, _) => None
      end
  end.

(** The visits that successive ticks pay to one subscriber, whatever their
    outcome: the subscriber afterwards and everything that was called. *)
Fixpoint visits (E : Env) (phoneNumber : string)
    (steps : list (Z * Calls)) (user : User) : User * list Event :=
  match steps with
  | [] => (user, [])
  | (now, c) :: rest =>
      let '(_, (user', _), ev) := visit E now phoneNumber (user, c) in
      let '(user'', ev') := visits E phoneNumber rest user' in
      (user'', (ev ++ ev')%list)
  end.

(** Inbound messages of one sender, handled one after the other. *)
Fixpoint inbound (now : Z) (messages : list string) (phoneNumber : string)
    (db : DB) : Outcome DB :=
  match messages with
  | [] => Val db
  | message :: rest =>
      match sms now message phoneNumber db with
      | Val (_, db') => inbound now rest phoneNumber db'
      | Exn e => Exn e
      end
  end.

(** The fetcher only requests: this tells its events from the gateway's. *)
Definition isRequest (e : Event) : bool :=
  match e with
  | Requested _ => true
  | Created _ _ _ => false
  end.

(** The calls after one more [client.messages.create]. *)
Definition sent (c : Calls) : Calls :=
  mkCalls (randoms c) (fetches c) (S (sends c)).

(** The address requested when no channel was selected. *)
Definition undefinedChannel : string :=
  "https://api.are.na/v2/channels/undefined/contents".

(** An integer that doubles hold and compute with exactly: one of at most
    2^53 in absolute value.  A sum or a product of two such integers that
    is again such an integer is the number that the program computes; past
    that, the program rounds, reaches [Infinity] and writes [null], which
    the embedding does not follow.  The properties that depend on the
    value of a number carry this bound. *)
Definition exactNumber (z : Z) : bool := Z.abs z <=? 2 ^ 53.

(** What the "yes" reply and [:slow factor] make of a subscriber. *)
Definition doubled (u : User) : User :=
  set_sendIntervals (map (fun interval => interval * 2) (sendIntervals u)) u.

Definition slowed (factor : Z) (u : User) : User :=
  set_sendIntervals
    (map (fun interval => interval * (1 + factor)) (sendIntervals u)) u.

(** What an accepted [:sync] makes of a subscriber. *)
Definition synced (intervals : list Z) (u : User) : User :=
  set_currentIntervalIndex (Some 0) (set_sendIntervals intervals u).

(** The fetch, or the send of the nugget, fails for the subscriber. *)
Definition dispatchFails (E : Env) (p : string) (u : User) (c : Calls) : Prop :=
  (exists e c1 ev1, fetchArenaContent E (lessonWeights u) c = (Exn e, c1, ev1))
  \/ (exists content c1 ev1,
         fetchArenaContent E (lessonWeights u) c = (Val content, c1, ev1)
         /\ gateway E (sends c1) p (nugget (url content)) = false).

(** The six ways one visit of the tick can go. *)
Inductive Visited (E : Env) (now : Z) (p : string) (u : User) (c : Calls)
  : User -> Calls -> list Event -> Prop :=
| Retired :
    negb (active u) || expired now u = true ->
    Visited E now p u c (set_active false u) c []
| NotDue :
    negb (active u) || expired now u = false -> due now u = false ->
    Visited E now p u c u c []
| FetchFailed e c1 ev1 :
    negb (active u) || expired now u = false -> due now u = true ->
    fetchArenaContent E (lessonWeights u) c = (Exn e, c1, ev1) ->
    Visited E now p u c u c1 ev1
| SendFailed content c1 ev1 :
    negb (active u) || expired now u = false -> due now u = true ->
    fetchArenaContent E (lessonWeights u) c = (Val content, c1, ev1) ->
    gateway E (sends c1) p (nugget (url content)) = false ->
    Visited E now p u c u (sent c1)
            (ev1 ++ [Created p (nugget (url content)) false])%list
| Dispatched content c1 ev1 :
    negb (active u) || expired now u = false -> due now u = true ->
    fetchArenaContent E (lessonWeights u) c = (Val content, c1, ev1) ->
    gateway E (sends c1) p (nugget (url content)) = true ->
    messageCount u + 1 <> 100 ->
    Visited E now p u c (advance now u) (sent c1)
            (ev1 ++ [Created p (nugget (url content)) true])%list
| DispatchedAndPrompted content c1 ev1 :
    negb (active u) || expired now u = false -> due now u = true ->
    fetchArenaContent E (lessonWeights u) c = (Val content, c1, ev1) ->
    gateway E (sends c1) p (nugget (url content)) = true ->
    messageCount u + 1 = 100 ->
    Visited E now p u c (advance now u) (sent (sent c1))
            (ev1 ++ [Created p (nugget (url content)) true;
                     Created p slowDownPrompt
                       (gateway E (S (sends c1)) p slowDownPrompt)])%list.

(** Every record that the store gives out satisfies the invariant. *)
Definition allWellFormed (db : DB) : Prop :=
  forall q u, lookup q db = Some u -> wellFormed u.

(** The four sextets that [Base64.encode] makes of three bytes. *)
Definition sextet1 (a : Z) : Z := Z.shiftr a 2.
Definition sextet2 (a b : Z) : Z :=
  Z.lor (Z.shiftl (Z.land a 3) 4) (Z.shiftr b 4).
Definition sextet3 (b c : Z) : Z :=
  Z.lor (Z.shiftl (Z.land b 15) 2) (Z.shiftr c 6).
Definition sextet4 (c : Z) : Z := Z.land c 63.

(** The values of a byte. *)
Definition bytesRange : list Z := map Z.of_nat (seq 0 256).

(** [n] is read back from its character. *)
Definition known (n : Z) : bool :=
  match Base64.unbase64 (Base64.char n) with
  | Some m => m =? n
  | None => false
  end.

Definition sextet (n : Z) : bool := (0 <=? n) && (n <? 64).

(** What the decoder needs of two neighbouring bytes: their sextets are
    sextets, and the shifts and masks of [Base64.bytes] undo those of
    [Base64.encode]. *)
Definition pairOk (a b : Z) : bool :=
  sextet (sextet1 a) && sextet (sextet2 a b) && sextet (sextet3 a b)
  && sextet (sextet4 a)
  && (Z.lor (Z.shiftl (sextet1 a) 2) (Z.shiftr (sextet2 a b) 4) =? a)
  && (Z.land (sextet2 a b) 15 =? Z.shiftr b 4)
  && (Z.lor (Z.shiftl (Z.shiftr a 4) 4) (Z.shiftr (sextet3 a b) 2) =? a)
  && (Z.land (sextet3 a b) 3 =? Z.shiftr b 6)
  && (Z.lor (Z.shiftl (Z.shiftr a 6) 6) (sextet4 a) =? a).

(** The nuggets that the gateway accepted for [p]. *)
Definition nuggets (p : string) (ev : list Event) : nat :=
  List.length (filter (isNugget p) ev).

(** What was handed to the gateway for [p]. *)
Definition addressed (p : string) (ev : list Event) : list Event :=
  filter (fun e => match e with
                   | Created to _ _ => String.eqb to p
                   | Requested _ => false
                   end) ev.

(** What the ticks may change in a record: the index and the time of the
    next send, the count upwards, and [active] towards [false]. *)
Definition sameSettings (u u' : User) : Prop :=
  sendIntervals u' = sendIntervals u
  /\ lessonWeights u' = lessonWeights u
  /\ endTime u' = endTime u
  /\ messageCount u <= messageCount u'
  /\ (active u' = true -> active u = true).

(** The same identities in the same order, each with the same settings. *)
Definition sameRecords (db db' : DB) : Prop :=
  Forall2 (fun e e' => fst e' = fst e /\ sameSettings (snd e) (snd e')) db db'.

(** The handler wrote the record of [p] only, and [p] had one. *)
Definition wroteOwn (p : string) (db db' : DB) : Prop :=
  (forall q, q <> p -> lookup q db' = lookup q db)
  /\ (lookup p db = None <-> lookup p db' = None).

(** What no message but [:begin] changes in the record of its sender. *)
Definition sameProgress (u u' : User) : Prop :=
  messageCount u' = messageCount u
  /\ nextSendTime u' = nextSendTime u
  /\ (active u' = true -> active u = true).

(** The hours that [:sync] accepts of one argument. *)
Definition validHours (s : string) (h : Z) : Prop :=
  JS.parseInt s = Some h /\ 1 <= h <= 72.

(** The lesson numbers, in the order of the weights. *)
Definition lessonNumbers : list Z := [0; 1; 2; 3; 4; 5; 6; 7; 8].

(** The lessons among [selections], in ascending order and once each. *)
Definition chosen (selections : list Z) : list Z :=
  filter (fun i => existsb (Z.eqb i) selections) lessonNumbers.

(** The requests that a fetch for the weights [lw] may make. *)
Definition enabledRequest (lw : list Z) (e : Event) : Prop :=
  exists i name,
    nth_error lw i = Some 1 /\ nth_error channels i = Some name
    /\ e = Requested ("https://api.are.na/v2/channels/" ++ name
                        ++ "/contents").

(** A link as the fetcher builds it, for a payload that is not empty. *)
Definition wellBuilt (E : Env) (content : Content) : Prop :=
  html content <> ""
  /\ url content = BASE_URL E ++ contentPath (Base64.encode (html content)).

(* ================================================================= *)
(** ** Sample worlds and subscribers *)

Module Sample.

(** A content API that always answers with one block, and a gateway that
    accepts everything. *)
Definition answering (body : string) : Env :=
  mkEnv (fun _ => 0%nat)
        (fun _ _ => Http 200 (Some [Block (Some body)]))
        (fun _ _ _ => true)
        "http://localhost:3000".

(** A content API that cannot be reached for its first eleven requests and
    answers with one block afterwards. *)
Definition flaky (body : string) : Env :=
  mkEnv (fun _ => 0%nat)
        (fun k _ =>
           if (k <? 11)%nat then Unreachable
           else Http 200 (Some [Block (Some body)]))
        (fun _ _ _ => true)
        "http://localhost:3000".

(** A gateway that refuses every message. *)
Definition refusing (body : string) : Env :=
  mkEnv (fun _ => 0%nat)
        (fun _ _ => Http 200 (Some [Block (Some body)]))
        (fun _ _ _ => false)
        "http://localhost:3000".

(** A gateway that refuses its second message only. *)
Definition refusingSecond (body : string) : Env :=
  mkEnv (fun _ => 0%nat)
        (fun _ _ => Http 200 (Some [Block (Some body)]))
        (fun k _ _ => negb (k =? 1)%nat)
        "http://localhost:3000".

Definition idle : Calls := mkCalls 0 0 0.

Definition alice : string := "+15550100".
Definition bob : string := "+15550101".

(** A subscriber as [:begin] creates it at time 0, with [count] messages
    received since. *)
Definition fresh (count : Z) : User :=
  mkUser true [hour] (repeat 1 9) count None (Some 0) (Some 0).

(** A subscriber after [:lessons] with no argument. *)
Definition noLessons (now : Z) : User :=
  mkUser true [hour] (repeat 0 9) 0 None (Some now) (Some 0).

Definition carol : string := "+15550102".

(** A store of two subscribers. *)
Definition both : DB := [(alice, fresh 0); (bob, fresh 0)].

End Sample.

(* ================================================================= *)
(** ** The store *)

Lemma lookup_store p u db : lookup p (store p u db) = Some u.
Proof.
  induction db as [|[k v] r IH]; simpl.
  - now rewrite String.eqb_refl.
  - destruct (String.eqb k p) eqn:K; simpl; rewrite K; auto.
Qed.

Lemma update_found p field f db u :
  lookup p db = Some u -> update p field f db = Val (store p (f u) db).
Proof. unfold update. now intros ->. Qed.

(* ================================================================= *)
(** ** The fetcher *)

Lemma attempt_events E lw retry c r c' ev :
  attempt E lw retry c = (r, c', ev) -> exists u, ev = [Requested u].
Proof.
  unfold attempt, bind, mathRandomIndex, fetch, ret, throw. simpl.
  destruct (remote E (fetches c) _) as [|status [contents|]|status]; simpl.
  - intros H; inversion H; eauto.
  - destruct ((200 <=? status) && (status <=? 299)).
    + destruct (nth_error contents _) as [[|h]|]; simpl;
        intros H; inversion H; eauto.
    + destruct (status =? 404), retry; simpl; intros H; inversion H; eauto.
  - destruct ((200 <=? status) && (status <=? 299)).
    + intros H; inversion H; eauto.
    + destruct (status =? 404), retry; simpl; intros H; inversion H; eauto.
  - destruct ((200 <=? status) && (status <=? 299)).
    + intros H; inversion H; eauto.
    + destruct (status =? 404), retry; simpl; intros H; inversion H; eauto.
Qed.

(** The [try] block hands back a call to retry only when it was given one. *)
Lemma attempt_inr E lw retry c k c' ev :
  attempt E lw retry c = (Val (inr k), c', ev) -> retry = Some k.
Proof.
  unfold attempt, bind, mathRandomIndex, fetch, ret, throw. simpl.
  destruct (remote E (fetches c) _) as [|status [contents|]|status]; simpl.
  - discriminate.
  - destruct ((200 <=? status) && (status <=? 299)).
    + destruct (nth_error contents _) as [[|h]|]; simpl; discriminate.
    + destruct (status =? 404), retry; simpl; intros H; inversion H; auto.
  - destruct ((200 <=? status) && (status <=? 299)).
    + discriminate.
    + destruct (status =? 404), retry; simpl; intros H; inversion H; auto.
  - destruct ((200 <=? status) && (status <=? 299)).
    + discriminate.
    + destruct (status =? 404), retry; simpl; intros H; inversion H; auto.
Qed.

Lemma fetchWithRetry_events E lw n : forall c r c' ev,
  fetchWithRetry E lw n c = (r, c', ev) -> forallb isRequest ev = true.
Proof.
  induction n as [|n IH]; intros c r c' ev; simpl; unfold bind, tryCatch.
  - destruct (attempt E lw None c) as [[r0 c0] ev0] eqn:A.
    pose proof (attempt_events _ _ _ _ _ _ _ A) as [u ->].
    destruct r0 as [[content|k]|e]; simpl; intros H.
    + inversion H; reflexivity.
    + apply attempt_inr in A. discriminate.
    + inversion H; reflexivity.
  - destruct (attempt E lw _ c) as [[r0 c0] ev0] eqn:A.
    pose proof (attempt_events _ _ _ _ _ _ _ A) as [u ->].
    destruct r0 as [[content|k]|e]; simpl.
    + intros H; inversion H; reflexivity.
    + apply attempt_inr in A. inversion A; subst k.
      destruct (fetchWithRetry E lw n c0) as [[r1 c1] ev1] eqn:F.
      intros H; inversion H; subst. simpl. eapply IH; eauto.
    + destruct (fetchWithRetry E lw n c0) as [[r1 c1] ev1] eqn:F.
      intros H; inversion H; subst. simpl. eapply IH; eauto.
Qed.

Lemma request_not_nugget p ev :
  forallb isRequest ev = true -> delivered p ev = false.
Proof. induction ev as [|[u|t b d] ev IH]; simpl; auto; discriminate. Qed.

Lemma request_not_prompt p ev :
  forallb isRequest ev = true -> prompts p ev = 0%nat.
Proof.
  unfold prompts.
  induction ev as [|[u|t b d] ev IH]; simpl; auto; discriminate.
Qed.

(** The fetcher hands nothing to the gateway. *)
Lemma fetch_quiet E lw c r c1 ev1 p :
  fetchArenaContent E lw c = (r, c1, ev1) ->
  delivered p ev1 = false /\ prompts p ev1 = 0%nat.
Proof.
  intros F. apply fetchWithRetry_events in F.
  split; [now apply request_not_nugget | now apply request_not_prompt].
Qed.

Lemma mapi_from_zero {B} (f : Z -> nat -> option B) n : forall i,
  (forall k, f 0 k = None) ->
  JS.dropNull (JS.mapi_from f i (repeat 0 n)) = [].
Proof.
  induction n as [|n IH]; intros i H; simpl; auto.
  rewrite H. now apply IH.
Qed.

Lemma activeChannels_zero n : activeChannels (repeat 0 n) = [].
Proof. unfold activeChannels, JS.mapi. now apply mapi_from_zero. Qed.

Lemma attempt_zero E n retry c :
  exists r c',
    attempt E (repeat 0 n) retry c = (r, c', [Requested undefinedChannel]).
Proof.
  unfold attempt. rewrite activeChannels_zero.
  unfold bind, mathRandomIndex, fetch, ret, throw. simpl.
  change (channelUrl None) with undefinedChannel.
  destruct (remote E (fetches c) _) as [|status [contents|]|status];
    simpl; eauto;
    (destruct ((200 <=? status) && (status <=? 299));
     [|destruct (status =? 404), retry; simpl; eauto]); simpl; eauto.
  destruct (nth_error contents _) as [[|h]|]; simpl; eauto.
Qed.

Lemma fetchWithRetry_zero E n k c :
  exists r c' ev,
    fetchWithRetry E (repeat 0 n) k c
    = (r, c', Requested undefinedChannel :: ev).
Proof.
  destruct k as [|k]; simpl; unfold bind, tryCatch;
    match goal with |- context [attempt E (repeat 0 n) ?r c] =>
      destruct (attempt_zero E n r c) as (r0 & c0 & ->) end;
    destruct r0 as [[content|m]|e]; simpl; eauto.
  - destruct (m c0) as [[r1 c1] ev1]; simpl; eauto.
  - destruct (m c0) as [[r1 c1] ev1]; simpl; eauto.
  - destruct (fetchWithRetry E (repeat 0 n) k c0) as [[r1 c1] ev1];
      simpl; eauto.
Qed.

(* ================================================================= *)
(** ** One visit of the tick *)

Lemma visit_eq E now p u c :
  visit E now p (u, c) =
  if negb (active u) || expired now u
  then (Val tt, (set_active false u, c), [])
  else if due now u then
    match fetchArenaContent E (lessonWeights u) c with
    | (Exn _, c1, ev1) => (Val tt, (u, c1), ev1)
    | (Val content, c1, ev1) =>
        let body := nugget (url content) in
        if gateway E (sends c1) p body then
          if messageCount (advance now u) =? 100 then
            (Val tt, (advance now u, sent (sent c1)),
             ev1 ++ [Created p body true;
                     Created p slowDownPrompt
                       (gateway E (S (sends c1)) p slowDownPrompt)])%list
          else
            (Val tt, (advance now u, sent c1),
             ev1 ++ [Created p body true])%list
        else (Val tt, (u, sent c1), ev1 ++ [Created p body false])%list
    end
  else (Val tt, (u, c), []).
Proof.
  unfold visit, bind, getUser at 1. simpl.
  destruct (negb (active u) || expired now u); [reflexivity|].
  destruct (due now u); [|reflexivity].
  unfold tryCatch, bind, onCalls at 1. simpl.
  destruct (fetchArenaContent E (lessonWeights u) c)
    as [[[content|e] c1] ev1]; simpl.
  - change (messageCount (advance now u)) with (messageCount u + 1).
    unfold onCalls, create, setUser, modify, getUser, ret. simpl.
    destruct (gateway E (sends c1) p (nugget (url content))); simpl;
      [destruct (messageCount u + 1 =? 100); simpl;
       [destruct (gateway E (S (sends c1)) p slowDownPrompt); simpl|]|];
      rewrite ?app_nil_r; reflexivity.
  - now rewrite app_nil_r.
Qed.

(** A visit never throws, and goes one of the six ways. *)
Lemma visit_cases E now p u c :
  exists u' c' ev,
    visit E now p (u, c) = (Val tt, (u', c'), ev)
    /\ Visited E now p u c u' c' ev.
Proof.
  rewrite visit_eq.
  destruct (negb (active u) || expired now u) eqn:A.
  { eexists _, _, _; split; [reflexivity | now apply Retired]. }
  destruct (due now u) eqn:D.
  2: { eexists _, _, _; split; [reflexivity | now apply NotDue]. }
  destruct (fetchArenaContent E (lessonWeights u) c)
    as [[[content|e] c1] ev1] eqn:F.
  2: { eexists _, _, _; split; [reflexivity | eapply FetchFailed; eauto]. }
  cbv zeta.
  destruct (gateway E (sends c1) p (nugget (url content))) eqn:G.
  2: { eexists _, _, _; split; [reflexivity | eapply SendFailed; eauto]. }
  change (messageCount (advance now u)) with (messageCount u + 1).
  destruct (messageCount u + 1 =? 100) eqn:C.
  - apply Z.eqb_eq in C.
    eexists _, _, _; split;
      [reflexivity | eapply DispatchedAndPrompted; eauto].
  - apply Z.eqb_neq in C.
    eexists _, _, _; split; [reflexivity | eapply Dispatched; eauto].
Qed.

Lemma visit_Visited E now p u c r u' c' ev :
  visit E now p (u, c) = (r, (u', c'), ev) ->
  r = Val tt /\ Visited E now p u c u' c' ev.
Proof.
  destruct (visit_cases E now p u c) as (u1 & c1 & ev1 & V & W).
  rewrite V. intros H; inversion H; subst. auto.
Qed.

Lemma delivered_app p a b :
  delivered p (a ++ b) = delivered p a || delivered p b.
Proof. apply existsb_app. Qed.

Lemma prompts_app p a b :
  (prompts p (a ++ b) = prompts p a + prompts p b)%nat.
Proof. unfold prompts. now rewrite filter_app, length_app. Qed.

Lemma nugget_delivered p u : delivered p [Created p (nugget u) true] = true.
Proof. unfold nugget. simpl. rewrite String.eqb_refl. now destruct u. Qed.

Lemma nugget_no_prompt p u d : prompts p [Created p (nugget u) d] = 0%nat.
Proof. unfold prompts, nugget. simpl. now rewrite andb_false_r. Qed.

Lemma prompt_counted p d : prompts p [Created p slowDownPrompt d] = 1%nat.
Proof. unfold prompts. simpl. now rewrite String.eqb_refl. Qed.

(* ================================================================= *)
(** ** Properties of the content fetcher and of the routes *)

(** C1.  The claim asks that a fetch for an all-zero weight vector fail
    before any remote request and that no message be sent.  The code has
    no such check: for every world and every all-zero vector, the first
    thing [fetchArenaContent] does is request the contents of the channel
    named "undefined"; and where the content API answers that request, the
    tick sends a nugget to the subscriber and counts it. *)
Theorem all_zero_weights_request_undefined_channel :
  (forall E n c, exists r c' ev,
      fetchArenaContent E (repeat 0 n) c
      = (r, c', Requested undefinedChannel :: ev))
  /\ (forall now p c, exists u c' ev,
         visit (Sample.answering "<p>hi</p>") now p (Sample.noLessons now, c)
         = (Val tt, (u, c'), ev)
         /\ delivered p ev = true /\ messageCount u = 1).
Proof.
  split.
  - intros. apply fetchWithRetry_zero.
  - intros now p c. rewrite visit_eq.
    assert (D : due now (Sample.noLessons now) = true)
      by (unfold due; simpl; apply Z.leb_refl).
    simpl. rewrite D.
    eexists _, _, _. split; [reflexivity|]. simpl.
    rewrite String.eqb_refl. simpl. auto.
Qed.

(** C3.  The claim asks that [stop], [sync], [slow] and [lessons] answer
    with a reply for an identity that has no record.  For such an identity
    [:stop], [:stop in 2] and [:slow 2] throw a [TypeError], so that the
    route writes no answer; [:sync] and [:lessons] catch the same error and
    answer with their validation text. *)
Theorem unknown_identity_stop_and_slow_throw now p db :
  lookup p db = None ->
  sms now ":stop" p db
  = Exn (TypeError "Cannot set properties of undefined (setting 'active')")
  /\ sms now ":stop in 2" p db
     = Exn (TypeError
              "Cannot set properties of undefined (setting 'endTime')")
  /\ sms now ":slow 2" p db
     = Exn (TypeError
              "Cannot read properties of undefined (reading 'sendIntervals')")
  /\ sms now ":sync 1 2 4" p db = Val (Some badIntervals, db)
  /\ sms now ":lessons 1 2" p db = Val (Some badLessons, db).
Proof.
  intros H. unfold sms, handleCommand. simpl.
  unfold handleStop, handleSlow, handleSync, handleLessons, update, read.
  simpl. rewrite H. auto.
Qed.

Lemma unknown_identity_stop_and_slow_throw_witness :
  sms 0 ":stop" Sample.alice []
  = Exn (TypeError "Cannot set properties of undefined (setting 'active')")
  /\ sms 0 ":stop in 2" Sample.alice []
     = Exn (TypeError
              "Cannot set properties of undefined (setting 'endTime')")
  /\ sms 0 ":slow 2" Sample.alice []
     = Exn (TypeError
              "Cannot read properties of undefined (reading 'sendIntervals')")
  /\ sms 0 ":sync 1 2 4" Sample.alice [] = Val (Some badIntervals, [])
  /\ sms 0 ":lessons 1 2" Sample.alice [] = Val (Some badLessons, []).
Proof.
  apply (unknown_identity_stop_and_slow_throw 0 Sample.alice []).
  reflexivity.
Defined.

(** C4.  The claim asks that every operation keep the cadence non-empty
    with the index inside it.  [:sync] with no argument is accepted for
    every registered subscriber: it stores an empty cadence, which breaks
    the invariant, and the next successful dispatch then leaves both
    [currentIntervalIndex] and [nextSendTime] as [NaN], stored as
    [null]. *)
Theorem empty_sync_breaks_invariant now p db u :
  lookup p db = Some u ->
  exists db' u',
    sms now ":sync" p db
    = Val (Some "Messages will now be sent with intervals:  hours", db')
    /\ lookup p db' = Some u'
    /\ sendIntervals u' = []
    /\ ~ wellFormed u'
    /\ forall later,
         currentIntervalIndex (advance later u') = None
         /\ nextSendTime (advance later u') = None.
Proof.
  intros H. unfold sms, handleCommand. simpl.
  unfold handleSync. simpl.
  rewrite (update_found _ _ _ _ _ H).
  rewrite (update_found _ _ _ _ _ (lookup_store _ _ _)).
  eexists _, _. split; [reflexivity|]. split; [apply lookup_store|].
  split; [reflexivity|]. split; [|split; reflexivity].
  intros [W _]. now apply W.
Qed.

Lemma empty_sync_breaks_invariant_witness :
  exists db' u',
    sms 0 ":sync" Sample.alice [(Sample.alice, Sample.fresh 0)]
    = Val (Some "Messages will now be sent with intervals:  hours", db')
    /\ lookup Sample.alice db' = Some u'
    /\ sendIntervals u' = []
    /\ ~ wellFormed u'
    /\ forall later,
         currentIntervalIndex (advance later u') = None
         /\ nextSendTime (advance later u') = None.
Proof.
  apply (empty_sync_breaks_invariant 0 Sample.alice
           [(Sample.alice, Sample.fresh 0)] (Sample.fresh 0)).
  reflexivity.
Defined.

(** C6.  The claim asks that a status query for a registered identity
    succeed.  The validation of the status route reads the phone number
    from the body of the request, while the route takes it from the path:
    a query that carries no body is refused with status 400, whatever the
    identity and the store. *)
Theorem status_query_without_body_refused now p db :
  getStatus now (mkStatusRequest p None) db = Json400.
Proof. unfold getStatus, validatePhoneNumber. reflexivity. Qed.

(** C7.  The claim asks that the reference built by the fetcher resolve to
    the fetched payload.  For the payload [<p>ok?</p>] the fetcher builds
    the path [/content/PHA+b2s/PC9wPg==]: the base64 text holds a [/], the
    path has one segment too many for the content route, and the request
    is answered by no route instead of by the payload. *)
Theorem slash_in_reference_not_resolved rnd gw base lw c :
  let E := mkEnv rnd (fun _ _ => Http 200 (Some [Block (Some "<p>ok?</p>")]))
                 gw base in
  let path := contentPath "PHA+b2s/PC9wPg==" in
  (exists c' ev,
      fetchArenaContent E lw c
      = (Val (mkContent "<p>ok?</p>" (base ++ path)), c', ev))
  /\ getContent path = NoRoute
  /\ getContent path <> Html "<p>ok?</p>".
Proof.
  simpl. split; [|split; [reflexivity | discriminate]].
  unfold fetchArenaContent, maxRetries.
  unfold fetchWithRetry at 1.
  unfold bind, tryCatch, attempt, bind, mathRandomIndex, fetch, ret.
  cbn -[Nat.modulo Base64.encode]. rewrite Nat.mod_1_r. simpl. eauto.
Qed.

(* ================================================================= *)
(** ** The "yes" and "no" replies *)

Lemma sms_yes now message p db u :
  JS.toLowerCase message = "yes" ->
  lookup p db = Some u -> 100 <= messageCount u ->
  sms now message p db = Val (Some reduced, store p (doubled u) db).
Proof.
  intros L H C. unfold sms. rewrite L, H. simpl.
  apply Z.leb_le in C. now rewrite C.
Qed.






(* ================================================================= *)
(** ** Growth of the cadence *)

Lemma handleSlow_found p s f db u :
  lookup p db = Some u -> JS.parseInt s = Some f -> 0 <= f <= 30 ->
  handleSlow p [s] db
  = Val ("Message intervals have been increased by " ++ JS.showZ f ++ "x.",
         store p (slowed f u) db).
Proof.
  intros H P [F0 F30]. unfold handleSlow, read. simpl. rewrite P.
  apply Z.leb_le in F0, F30. rewrite F0, F30. simpl.
  rewrite H. now rewrite (update_found _ _ _ _ _ H).
Qed.

Lemma sms_slow now p f db u :
  lookup p db = Some u -> 1 <= f <= 30 ->
  sms now (":slow " ++ JS.showZ f) p db
  = Val (Some ("Message intervals have been increased by "
                 ++ JS.showZ f ++ "x."), store p (slowed f u) db).
Proof.
  intros H F.
  assert (C : In f [1;2;3;4;5;6;7;8;9;10;11;12;13;14;15;16;17;18;19;20;
                    21;22;23;24;25;26;27;28;29;30]).
  { simpl. lia. }
  simpl in C.
  repeat (destruct C as [<- | C];
          [unfold sms, handleCommand, handleSlow, read, update; simpl;
           rewrite H; reflexivity|]).
  destruct C.
Qed.

Lemma iter_slowed f n : forall u,
  sendIntervals (Nat.iter n (slowed f) u)
  = map (fun interval => interval * (1 + f) ^ Z.of_nat n) (sendIntervals u).
Proof.
  induction n as [|n IH]; intros u.
  - simpl. rewrite <- (map_id (sendIntervals u)) at 1.
    apply map_ext. intros; lia.
  - rewrite Nat.iter_succ. unfold slowed at 1.
    cbn [sendIntervals set_sendIntervals]. rewrite IH, map_map.
    apply map_ext. intros a.
    rewrite Nat2Z.inj_succ, Z.pow_succ_r by lia. ring.
Qed.

Lemma inbound_slow now p f n : 1 <= f <= 30 -> forall db u,
  lookup p db = Some u ->
  exists db', inbound now (repeat (":slow " ++ JS.showZ f) n) p db = Val db'
              /\ lookup p db' = Some (Nat.iter n (slowed f) u).
Proof.
  intros F. induction n as [|n IH]; intros db u H.
  - exists db. now split.
  - cbn [repeat inbound]. rewrite (sms_slow _ _ _ _ _ H F).
    destruct (IH _ _ (lookup_store p (slowed f u) db)) as (db' & I & L).
    exists db'. split; [exact I|]. now rewrite Nat.iter_succ_r.
Qed.

Lemma inbound_yes now p n : forall db u,
  lookup p db = Some u -> 100 <= messageCount u ->
  exists db', inbound now (repeat "yes" n) p db = Val db'
              /\ lookup p db' = Some (Nat.iter n (slowed 1) u).
Proof.
  induction n as [|n IH]; intros db u H C.
  - exists db. now split.
  - cbn [repeat inbound]. rewrite (sms_yes now "yes" p db u eq_refl H C).
    destruct (IH _ _ (lookup_store p (doubled u) db) C) as (db' & I & L).
    exists db'. split; [exact I|]. now rewrite Nat.iter_succ_r.
Qed.

Lemma scaled_hours k n l :
  72 < k ^ Z.of_nat n -> Forall (fun interval => hour <= interval) l ->
  Forall (fun interval => 72 * hour < interval)
         (map (fun interval => interval * k ^ Z.of_nat n) l).
Proof.
  intros K P. apply Forall_map. apply Forall_impl with (2 := P).
  intros a A. unfold hour in *. nia.
Qed.

Lemma scaled_exact k l :
  Forall (fun interval => exactNumber (interval * k) = true) l ->
  Forall (fun interval => exactNumber interval = true)
         (map (fun interval => interval * k) l).
Proof. intros P. now apply Forall_map. Qed.

(** C10.  The bound of 72 hours that [:sync] puts on an interval is not
    kept afterwards: no handler checks an interval again.  For a
    registered subscriber, [:slow f] with [1 <= f <= 30] multiplies every
    interval by [1 + f], and "yes" at 100 messages or more multiplies
    every interval by 2.  This is stated for the runs in which the
    products stay exact numbers, which bounds their length: after [n]
    such messages every interval is the original one times
    [(1 + f) ^ n], or [2 ^ n], and intervals of at least one hour, the
    least that [:sync] stores, all exceed 72 hours as soon as the factor
    exceeds 72, which is after 7 messages at the latest. *)
Theorem intervals_grow_past_sync_bound now p db u :
  lookup p db = Some u ->
  (forall s f, JS.parseInt s = Some f -> 1 <= f <= 30 ->
     Forall (fun interval => exactNumber (interval * (1 + f)) = true)
            (sendIntervals u) ->
     exists reply u',
       handleSlow p [s] db = Val (reply, store p u' db)
       /\ sendIntervals u'
          = map (fun interval => interval * (1 + f)) (sendIntervals u)
       /\ Forall (fun interval => exactNumber interval = true)
                 (sendIntervals u'))
  /\ (100 <= messageCount u ->
      Forall (fun interval => exactNumber (interval * 2) = true)
             (sendIntervals u) ->
      exists u',
        sms now "yes" p db = Val (Some reduced, store p u' db)
        /\ sendIntervals u'
           = map (fun interval => interval * 2) (sendIntervals u)
        /\ Forall (fun interval => exactNumber interval = true)
                  (sendIntervals u'))
  /\ (forall f n, 1 <= f <= 30 ->
      Forall (fun interval =>
                exactNumber (interval * (1 + f) ^ Z.of_nat n) = true)
             (sendIntervals u) ->
      exists db' u',
        inbound now (repeat (":slow " ++ JS.showZ f) n) p db = Val db'
        /\ lookup p db' = Some u'
        /\ sendIntervals u'
           = map (fun interval => interval * (1 + f) ^ Z.of_nat n)
                 (sendIntervals u)
        /\ Forall (fun interval => exactNumber interval = true)
                  (sendIntervals u')
        /\ (Forall (fun interval => hour <= interval) (sendIntervals u) ->
            72 < (1 + f) ^ Z.of_nat n ->
            Forall (fun interval => 72 * hour < interval) (sendIntervals u')))
  /\ (forall n, 100 <= messageCount u ->
      Forall (fun interval => exactNumber (interval * 2 ^ Z.of_nat n) = true)
             (sendIntervals u) ->
      exists db' u',
        inbound now (repeat "yes" n) p db = Val db'
        /\ lookup p db' = Some u'
        /\ sendIntervals u'
           = map (fun interval => interval * 2 ^ Z.of_nat n) (sendIntervals u)
        /\ Forall (fun interval => exactNumber interval = true)
                  (sendIntervals u')
        /\ (Forall (fun interval => hour <= interval) (sendIntervals u) ->
            72 < 2 ^ Z.of_nat n ->
            Forall (fun interval => 72 * hour < interval) (sendIntervals u'))).
Proof.
  intros H. split; [|split; [|split]].
  - intros s f P F X. eexists _, (slowed f u).
    split; [apply handleSlow_found; auto; lia|].
    split; [reflexivity | now apply scaled_exact].
  - intros C X. exists (doubled u). split; [now apply sms_yes|].
    split; [reflexivity | now apply scaled_exact].
  - intros f n F X.
    destruct (inbound_slow now p f n F db u H) as (db' & I & L).
    exists db', (Nat.iter n (slowed f) u). rewrite iter_slowed.
    repeat split; auto.
    + now apply scaled_exact.
    + intros P N. now apply scaled_hours.
  - intros n C X. destruct (inbound_yes now p n db u H C) as (db' & I & L).
    exists db', (Nat.iter n (slowed 1) u). rewrite iter_slowed.
    repeat split; auto.
    + now apply scaled_exact.
    + intros P N. now apply scaled_hours.
Qed.

Lemma intervals_grow_past_sync_bound_witness :
  (exists db' u',
      inbound 0 (repeat "yes" 7) Sample.alice
              [(Sample.alice, Sample.fresh 100)] = Val db'
      /\ lookup Sample.alice db' = Some u'
      /\ Forall (fun interval => exactNumber interval = true)
                (sendIntervals u')
      /\ Forall (fun interval => 72 * hour < interval) (sendIntervals u'))
  /\ (exists db' u',
         inbound 0 (repeat ":slow 30" 2) Sample.alice
                 [(Sample.alice, Sample.fresh 0)] = Val db'
         /\ lookup Sample.alice db' = Some u'
         /\ Forall (fun interval => exactNumber interval = true)
                   (sendIntervals u')
         /\ Forall (fun interval => 72 * hour < interval)
                   (sendIntervals u')).
Proof.
  assert (A : Forall (fun interval => hour <= interval) [hour])
    by (constructor; [lia | constructor]).
  split.
  - destruct (intervals_grow_past_sync_bound 0 Sample.alice
                [(Sample.alice, Sample.fresh 100)] (Sample.fresh 100) eq_refl)
      as (_ & _ & _ & K).
    destruct (K 7%nat ltac:(simpl; lia)
                ltac:(constructor; [reflexivity | constructor]))
      as (db' & u' & I & L & _ & X & G).
    exists db', u'. split; [exact I|]. split; [exact L|].
    split; [exact X|]. apply G; [exact A | reflexivity].
  - destruct (intervals_grow_past_sync_bound 0 Sample.alice
                [(Sample.alice, Sample.fresh 0)] (Sample.fresh 0) eq_refl)
      as (_ & _ & K & _).
    destruct (K 30 2%nat ltac:(lia)
                ltac:(constructor; [reflexivity | constructor]))
      as (db' & u' & I & L & _ & X & G).
    exists db', u'. split; [exact I|]. split; [exact L|].
    split; [exact X|]. apply G; [exact A | reflexivity].
Defined.

(* ================================================================= *)
(** ** Failures inside a tick *)

Lemma scan_total E now db : forall c,
  exists db' c' ev, scan E now db c = (Val db', c', ev).
Proof.
  induction db as [|[p u] rest IH]; intros c; simpl.
  - unfold ret. eauto.
  - destruct (visit_cases E now p u c) as (u' & c1 & ev1 & -> & _).
    destruct (IH c1) as (rest' & c2 & ev2 & ->). eauto.
Qed.

Lemma scan_app E now a b : forall c a' c1 ev1 b' c2 ev2,
  scan E now a c = (Val a', c1, ev1) ->
  scan E now b c1 = (Val b', c2, ev2) ->
  scan E now (a ++ b)%list c = (Val (a' ++ b')%list, c2, (ev1 ++ ev2)%list).
Proof.
  induction a as [|[p u] a IH]; intros c a' c1 ev1 b' c2 ev2 A B; simpl in *.
  - unfold ret in A. inversion A; subst. exact B.
  - destruct (visit_cases E now p u c) as (u' & c0 & ev0 & V & _).
    rewrite V in *.
    destruct (scan_total E now a c0) as (a0 & c3 & ev3 & S0).
    rewrite S0 in A. inversion A; subst.
    rewrite (IH _ _ _ _ _ _ _ S0 B). now rewrite app_assoc.
Qed.

(** C5.  In a tick that has scanned the subscribers [earlier], a
    subscriber that is active, not expired and due, and for whom the fetch
    or the send of the nugget fails: the visit does not throw, delivers
    nothing and leaves the subscriber's record as it was; the subscribers
    [later] in the scan are scanned as they would be on their own, and the
    tick ends normally and writes the store with this record unchanged. *)
Theorem failed_dispatch_leaves_subscriber
    E now p u c earlier earlier' c0 ev0 later :
  scan E now earlier c0 = (Val earlier', c, ev0) ->
  active u = true -> expired now u = false -> due now u = true ->
  dispatchFails E p u c ->
  exists c1 ev1 later' c2 ev2,
    visit E now p (u, c) = (Val tt, (u, c1), ev1)
    /\ delivered p ev1 = false
    /\ scan E now later c1 = (Val later', c2, ev2)
    /\ sendScheduledMessages E now (earlier ++ (p, u) :: later)%list c0
       = (Val tt, (earlier' ++ (p, u) :: later')%list, c2,
          (ev0 ++ ev1 ++ ev2)%list).
Proof.
  intros S0 A X D F.
  assert (V : exists c1 ev1,
             visit E now p (u, c) = (Val tt, (u, c1), ev1)
             /\ delivered p ev1 = false).
  { rewrite visit_eq, A, X, D. simpl.
    destruct F as [(e & c1 & ev1 & F) | (content & c1 & ev1 & F & G)];
      rewrite F.
    - eexists _, _. split; [reflexivity|]. eapply fetch_quiet; eauto.
    - cbv zeta. rewrite G. eexists _, _. split; [reflexivity|].
      rewrite delivered_app. apply (fetch_quiet _ _ _ _ _ _ p) in F as [-> _].
      reflexivity. }
  destruct V as (c1 & ev1 & V & Q).
  destruct (scan_total E now later c1) as (later' & c2 & ev2 & S2).
  exists c1, ev1, later', c2, ev2. repeat split; auto.
  unfold sendScheduledMessages.
  rewrite (scan_app E now earlier ((p, u) :: later) c0 earlier' c ev0
                    ((p, u) :: later') c2 (ev1 ++ ev2)%list S0).
  - reflexivity.
  - simpl. now rewrite V, S2.
Qed.

Lemma failed_dispatch_leaves_subscriber_witness :
  (exists c1 ev1 later' c2 ev2,
      visit (Sample.flaky "<p>hi</p>") 10 Sample.alice
            (Sample.fresh 3, Sample.idle)
      = (Val tt, (Sample.fresh 3, c1), ev1)
      /\ delivered Sample.alice ev1 = false
      /\ scan (Sample.flaky "<p>hi</p>") 10 [(Sample.bob, Sample.fresh 0)] c1
         = (Val later', c2, ev2)
      /\ sendScheduledMessages (Sample.flaky "<p>hi</p>") 10
           ([] ++ (Sample.alice, Sample.fresh 3)
               :: [(Sample.bob, Sample.fresh 0)])%list Sample.idle
         = (Val tt, ([] ++ (Sample.alice, Sample.fresh 3) :: later')%list, c2,
            ([] ++ ev1 ++ ev2)%list))
  /\ (exists c1 ev1 later' c2 ev2,
         visit (Sample.refusing "<p>hi</p>") 10 Sample.alice
               (Sample.fresh 3, Sample.idle)
         = (Val tt, (Sample.fresh 3, c1), ev1)
         /\ delivered Sample.alice ev1 = false
         /\ scan (Sample.refusing "<p>hi</p>") 10 [] c1 = (Val later', c2, ev2)
         /\ sendScheduledMessages (Sample.refusing "<p>hi</p>") 10
              ([] ++ (Sample.alice, Sample.fresh 3) :: [])%list Sample.idle
            = (Val tt, ([] ++ (Sample.alice, Sample.fresh 3) :: later')%list,
               c2, ([] ++ ev1 ++ ev2)%list)).
Proof.
  split.
  - apply (failed_dispatch_leaves_subscriber (Sample.flaky "<p>hi</p>") 10
             Sample.alice (Sample.fresh 3) Sample.idle [] [] Sample.idle []
             [(Sample.bob, Sample.fresh 0)]
             eq_refl eq_refl eq_refl eq_refl).
    left. eexists _, _, _. vm_compute. reflexivity.
  - apply (failed_dispatch_leaves_subscriber (Sample.refusing "<p>hi</p>") 10
             Sample.alice (Sample.fresh 3) Sample.idle [] [] Sample.idle []
             [] eq_refl eq_refl eq_refl eq_refl).
    right. eexists _, _, _. split; [vm_compute; reflexivity | reflexivity].
Defined.

(* ================================================================= *)
(** ** The slow-down prompt *)

(** A visit either leaves the count and sends no prompt, or delivers a
    nugget, adds one to the count, and sends the prompt exactly when the
    count becomes 100. *)
Lemma Visited_prompts E now p u c u' c' ev :
  Visited E now p u c u' c' ev ->
  (messageCount u' = messageCount u /\ delivered p ev = false
   /\ prompts p ev = 0%nat)
  \/ (messageCount u' = messageCount u + 1 /\ delivered p ev = true
      /\ prompts p ev = if messageCount u' =? 100 then 1%nat else 0%nat).
Proof.
  intros V.
  destruct V as [A | A D | e c1 ev1 A D F | content c1 ev1 A D F G
                 | content c1 ev1 A D F G C | content c1 ev1 A D F G C].
  - left. auto.
  - left. auto.
  - left. destruct (fetch_quiet _ _ _ _ _ _ p F). auto.
  - left. destruct (fetch_quiet _ _ _ _ _ _ p F) as [Q R].
    rewrite delivered_app, prompts_app, Q, R, nugget_no_prompt. auto.
  - right. destruct (fetch_quiet _ _ _ _ _ _ p F) as [Q R].
    change (messageCount (advance now u)) with (messageCount u + 1).
    rewrite delivered_app, prompts_app, Q, R, nugget_no_prompt,
      nugget_delivered.
    apply Z.eqb_neq in C. rewrite C. auto.
  - right. destruct (fetch_quiet _ _ _ _ _ _ p F) as [Q R].
    change (messageCount (advance now u)) with (messageCount u + 1).
    change [Created p (nugget (url content)) true;
            Created p slowDownPrompt
              (gateway E (S (sends c1)) p slowDownPrompt)]
      with ([Created p (nugget (url content)) true]
              ++ [Created p slowDownPrompt
                    (gateway E (S (sends c1)) p slowDownPrompt)])%list.
    rewrite !delivered_app, !prompts_app, Q, R, nugget_no_prompt,
      nugget_delivered, prompt_counted.
    apply Z.eqb_eq in C. rewrite C. auto.
Qed.

(** Over a run of visits the count never decreases, and the prompt is
    sent once if the count goes from below 100 to 100 or more, and not at
    all otherwise. *)
Lemma visits_prompts E p : forall steps u u' ev,
  visits E p steps u = (u', ev) ->
  messageCount u <= messageCount u'
  /\ prompts p ev
     = if (messageCount u <? 100) && (100 <=? messageCount u')
       then 1%nat else 0%nat.
Proof.
  induction steps as [|[now c] rest IH]; intros u u' ev H; simpl in H.
  - inversion H; subst. split; [lia|].
    unfold prompts; simpl.
    destruct (messageCount u' <? 100) eqn:L,
             (100 <=? messageCount u') eqn:G; simpl; auto; lia.
  - destruct (visit E now p (u, c)) as [[r [u1 c1]] ev1] eqn:V.
    destruct (visits E p rest u1) as [u2 ev2] eqn:R.
    inversion H; subst. clear H.
    apply visit_Visited in V as [_ V]. destruct (IH _ _ _ R) as [M P].
    rewrite prompts_app, P.
    apply Visited_prompts in V as [(C & _ & ->) | (C & _ & ->)].
    + rewrite C. split; [lia | reflexivity].
    + split; [lia|].
      destruct (messageCount u1 =? 100) eqn:X,
               (messageCount u1 <? 100) eqn:Y,
               (100 <=? messageCount u') eqn:Z1,
               (messageCount u <? 100) eqn:W; simpl; auto; lia.
Qed.

(** C8.  The slow-down prompt is handed to the gateway exactly once.  In
    one visit of the tick, the prompt is sent once if the visit delivers a
    nugget and thereby makes [messageCount] equal to 100, and not at all
    otherwise.  Over any run of visits that successive ticks pay to a
    subscriber, the count never decreases, and the prompt is sent once if
    the count goes from below 100 to 100 or more during the run, and not at
    all otherwise: no visit at a count of 100 or more sends it again. *)
Theorem slow_down_prompt_once E p :
  (forall now u c r u' c' ev,
      visit E now p (u, c) = (r, (u', c'), ev) ->
      prompts p ev
      = if delivered p ev && (messageCount u' =? 100) then 1%nat else 0%nat)
  /\ (forall steps u u' ev,
         visits E p steps u = (u', ev) ->
         messageCount u <= messageCount u'
         /\ prompts p ev
            = if (messageCount u <? 100) && (100 <=? messageCount u')
              then 1%nat else 0%nat).
Proof.
  split.
  - intros now u c r u' c' ev V. apply visit_Visited in V as [_ V].
    apply Visited_prompts in V as [(_ & -> & ->) | (_ & -> & ->)];
      reflexivity.
  - apply visits_prompts.
Qed.

Lemma slow_down_prompt_once_witness :
  let E := Sample.answering "<p>hi</p>" in
  let steps := [(0, Sample.idle); (hour, Sample.idle);
                (2 * hour, Sample.idle); (3 * hour, Sample.idle)] in
  exists u' ev,
    visits E Sample.alice steps (Sample.fresh 98) = (u', ev)
    /\ messageCount u' = 102
    /\ prompts Sample.alice ev = 1%nat.
Proof.
  cbv zeta. eexists _, _.
  split; [vm_compute; reflexivity|]. split; [reflexivity|].
  apply (proj2 (proj2 (slow_down_prompt_once (Sample.answering "<p>hi</p>")
                         Sample.alice)
                      [(0, Sample.idle); (hour, Sample.idle);
                       (2 * hour, Sample.idle); (3 * hour, Sample.idle)]
                      (Sample.fresh 98) _ _ ltac:(vm_compute; reflexivity))).
Defined.

(* ================================================================= *)
(** ** The cadence *)

(** A visit that delivers a nugget makes the four assignments. *)
Lemma Visited_delivered E now p u c u' c' ev :
  Visited E now p u c u' c' ev -> delivered p ev = true -> u' = advance now u.
Proof.
  intros V.
  destruct V as [A | A D | e c1 ev1 A D F | content c1 ev1 A D F G
                 | content c1 ev1 A D F G C | content c1 ev1 A D F G C];
    try reflexivity; try discriminate.
  - destruct (fetch_quiet _ _ _ _ _ _ p F) as [-> _]. discriminate.
  - destruct (fetch_quiet _ _ _ _ _ _ p F) as [Q _].
    rewrite delivered_app, Q. simpl. discriminate.
Qed.

Lemma advance_cycle now u i :
  currentIntervalIndex u = Some (Z.of_nat i) ->
  (i < List.length (sendIntervals u))%nat ->
  sendIntervals (advance now u) = sendIntervals u
  /\ currentIntervalIndex (advance now u)
     = Some (Z.of_nat ((i + 1) mod List.length (sendIntervals u)))
  /\ nextSendTime (advance now u) = Some (now + nth i (sendIntervals u) 0)
  /\ messageCount (advance now u) = messageCount u + 1.
Proof.
  intros I L. unfold advance, nextIndex, currentInterval. rewrite I. simpl.
  split; [reflexivity|]. split; [|split; [|reflexivity]].
  - destruct (Z.eqb_spec (Z.of_nat (List.length (sendIntervals u))) 0)
      as [Z0|_]; [lia|].
    rewrite Z.rem_mod_nonneg by lia.
    rewrite Nat2Z.inj_mod, Nat2Z.inj_add. reflexivity.
  - destruct (Z.ltb_spec (Z.of_nat i) 0) as [?|_]; [lia|].
    rewrite Nat2Z.id.
    rewrite (nth_error_nth' (sendIntervals u) 0 L). reflexivity.
Qed.

Lemma dispatches_cycle E p steps : forall u i u',
  currentIntervalIndex u = Some (Z.of_nat i) ->
  (i < List.length (sendIntervals u))%nat ->
  dispatches E p steps u = Some u' ->
  sendIntervals u' = sendIntervals u
  /\ currentIntervalIndex u'
     = Some (Z.of_nat ((i + List.length steps)
                         mod List.length (sendIntervals u)))
  /\ messageCount u' = messageCount u + Z.of_nat (List.length steps).
Proof.
  induction steps as [|[now c] rest IH]; intros u i u' I L H; simpl in H.
  - inversion H; subst. rewrite Nat.add_0_r, Nat.mod_small by exact L.
    simpl. repeat split; auto. lia.
  - destruct (visit E now p (u, c)) as [[r [u1 c1]] ev] eqn:V.
    apply visit_Visited in V as [-> V].
    destruct (delivered p ev) eqn:D; [|discriminate].
    apply (Visited_delivered _ _ _ _ _ _ _ _ V) in D. subst u1.
    destruct (advance_cycle now u i I L) as (S1 & I1 & _ & C1).
    assert (L1 : ((i + 1) mod List.length (sendIntervals u)
                  < List.length (sendIntervals (advance now u)))%nat).
    { rewrite S1. apply Nat.mod_upper_bound. lia. }
    destruct (IH _ _ _ I1 L1 H) as (S2 & I2 & C2).
    rewrite S1 in S2, I2. split; [exact S2|]. split.
    + rewrite I2. f_equal. f_equal. simpl List.length.
      rewrite Nat.Div0.add_mod_idemp_l. f_equal. lia.
    + rewrite C2, C1. simpl List.length. lia.
Qed.

Lemma dispatches_app E p a : forall b u,
  dispatches E p (a ++ b) u
  = match dispatches E p a u with
    | Some u1 => dispatches E p b u1
    | None => None
    end.
Proof.
  induction a as [|[now c] a IH]; intros b u; simpl; auto.
  destruct (visit E now p (u, c)) as [[[r|e] [u1 c1]] ev]; auto.
  destruct (delivered p ev); auto.
Qed.

Lemma dispatches_last E p pre now c u u' :
  dispatches E p (pre ++ [(now, c)]) u = Some u' ->
  exists u1, dispatches E p pre u = Some u1 /\ u' = advance now u1.
Proof.
  rewrite dispatches_app.
  destruct (dispatches E p pre u) as [u1|]; [|discriminate].
  simpl. destruct (visit E now p (u1, c)) as [[r [u2 c2]] ev] eqn:V.
  apply visit_Visited in V as [-> V].
  destruct (delivered p ev) eqn:D; [|discriminate].
  intros H; inversion H; subst. exists u1. split; auto.
  eapply Visited_delivered; eauto.
Qed.

Lemma handleSync_found p params intervals db u :
  lookup p db = Some u -> mapThrow syncHours params = Some intervals ->
  exists db',
    handleSync p params db
    = Val ("Messages will now be sent with intervals: "
             ++ JS.join ", " params ++ " hours", db')
    /\ lookup p db' = Some (synced intervals u).
Proof.
  intros H P. unfold handleSync. rewrite P.
  rewrite (update_found _ _ _ _ _ H).
  rewrite (update_found _ _ _ _ _ (lookup_store _ _ _)).
  eexists. split; [reflexivity|]. apply lookup_store.
Qed.

Lemma syncHours_valid s h :
  JS.parseInt s = Some h -> 1 <= h <= 72 -> syncHours s = Some (h * hour).
Proof.
  intros P [A B]. unfold syncHours. rewrite P.
  destruct (Z.ltb_spec h 1); [lia|]. destruct (Z.ltb_spec 72 h); [lia|].
  reflexivity.
Qed.

(** C2.  For a registered subscriber and arguments [a], [b], [c] that read
    as hours between 1 and 72, [:sync a b c] stores the three intervals, in
    milliseconds, and the index 0.  From there, in any run of successive
    successful dispatches, the dispatch that comes after [k] earlier ones
    finds the index at [k mod 3], sets [nextSendTime] to its own time plus
    the interval at that index, and leaves the index at
    [(k mod 3 + 1) mod 3]: the intervals are consumed in the order a, b,
    c, a, b, c, and so on. *)
Theorem sync_intervals_consumed_cyclically E p a b c ha hb hc db u0 :
  lookup p db = Some u0 ->
  JS.parseInt a = Some ha -> 1 <= ha <= 72 ->
  JS.parseInt b = Some hb -> 1 <= hb <= 72 ->
  JS.parseInt c = Some hc -> 1 <= hc <= 72 ->
  exists reply db' u1,
    handleSync p [a; b; c] db = Val (reply, db')
    /\ lookup p db' = Some u1
    /\ sendIntervals u1 = [ha * hour; hb * hour; hc * hour]
    /\ currentIntervalIndex u1 = Some 0
    /\ forall earlier now calls u',
         dispatches E p (earlier ++ [(now, calls)]) u1 = Some u' ->
         exists u,
           dispatches E p earlier u1 = Some u
           /\ sendIntervals u = sendIntervals u1
           /\ currentIntervalIndex u
              = Some (Z.of_nat (List.length earlier mod 3))
           /\ nextSendTime u'
              = Some (now + nth (List.length earlier mod 3)
                                [ha * hour; hb * hour; hc * hour] 0)
           /\ currentIntervalIndex u'
              = Some (Z.of_nat ((List.length earlier mod 3 + 1) mod 3))
           /\ sendIntervals u' = sendIntervals u1
           /\ messageCount u' = messageCount u + 1.
Proof.
  intros H Pa Ba Pb Bb Pc Bc.
  destruct (handleSync_found p [a; b; c]
              [ha * hour; hb * hour; hc * hour] db u0 H)
    as (db' & S & L).
  { simpl. now rewrite (syncHours_valid _ _ Pa Ba),
      (syncHours_valid _ _ Pb Bb), (syncHours_valid _ _ Pc Bc). }
  eexists _, db', _. split; [exact S|]. split; [exact L|].
  split; [reflexivity|]. split; [reflexivity|].
  intros earlier now calls u' D.
  apply dispatches_last in D as (u & D & ->). exists u. split; [exact D|].
  pose proof (dispatches_cycle E p earlier
                (synced [ha * hour; hb * hour; hc * hour] u0) 0%nat u eq_refl)
    as K.
  cbn [sendIntervals synced set_currentIntervalIndex set_sendIntervals
       List.length Nat.add] in K.
  destruct K as (S1 & I1 & _); [lia | exact D |].
  split; [exact S1|]. split; [exact I1|].
  pose proof (advance_cycle now u (List.length earlier mod 3) I1) as K.
  rewrite S1 in K. cbn [List.length] in K.
  destruct K as (S2 & I2 & N2 & C2); [apply Nat.mod_upper_bound; lia|].
  auto.
Qed.

Lemma sync_intervals_consumed_cyclically_witness :
  let E := Sample.answering "<p>hi</p>" in
  let earlier := [(0, Sample.idle); (hour, Sample.idle);
                  (3 * hour, Sample.idle); (7 * hour, Sample.idle);
                  (8 * hour, Sample.idle)] in
  exists reply db' u1,
    handleSync Sample.alice ["1"; "2"; "4"] [(Sample.alice, Sample.fresh 0)]
    = Val (reply, db')
    /\ lookup Sample.alice db' = Some u1
    /\ exists u u',
         dispatches E Sample.alice earlier u1 = Some u
         /\ currentIntervalIndex u = Some 2
         /\ dispatches E Sample.alice
              (earlier ++ [(10 * hour, Sample.idle)]) u1 = Some u'
         /\ nextSendTime u' = Some (10 * hour + 4 * hour)
         /\ currentIntervalIndex u' = Some 0
         /\ messageCount u' = 6.
Proof.
  cbv zeta.
  destruct (sync_intervals_consumed_cyclically
              (Sample.answering "<p>hi</p>") Sample.alice "1" "2" "4" 1 2 4
              [(Sample.alice, Sample.fresh 0)] (Sample.fresh 0)
              eq_refl eq_refl ltac:(lia) eq_refl ltac:(lia)
              eq_refl ltac:(lia))
    as (reply & db' & u1 & S & L & _ & _ & K).
  exists reply, db', u1. split; [exact S|]. split; [exact L|].
  vm_compute in S. inversion S; subst reply db'. clear S.
  vm_compute in L. inversion L; subst u1. clear L.
  specialize (K [(0, Sample.idle); (hour, Sample.idle);
                 (3 * hour, Sample.idle); (7 * hour, Sample.idle);
                 (8 * hour, Sample.idle)] (10 * hour) Sample.idle).
  edestruct K as (u & D & _ & I & N & I' & _ & C);
    [vm_compute; reflexivity|].
  eexists u, _. split; [exact D|]. split; [exact I|].
  split; [vm_compute; reflexivity|]. split; [exact N|].
  split; [exact I'|].
  vm_compute in D. inversion D; subst u. exact C.
Defined.

(* ================================================================= *)
(** ** Base64 and the content route *)

Lemma inRange a : 0 <= a < 256 -> In a bytesRange.
Proof.
  intros H. unfold bytesRange. apply in_map_iff. exists (Z.to_nat a).
  split; [lia|]. apply in_seq. lia.
Qed.

Lemma allKnown : forallb known (map Z.of_nat (seq 0 64)) = true.
Proof. vm_compute. reflexivity. Qed.

Lemma sextet_known n : sextet n = true -> known n = true.
Proof.
  unfold sextet. intros H. apply andb_prop in H as [A B].
  apply Z.leb_le in A. apply Z.ltb_lt in B.
  pose proof allKnown as K. rewrite forallb_forall in K. apply K.
  apply in_map_iff. exists (Z.to_nat n). split; [lia|]. apply in_seq. lia.
Qed.

Lemma allPairs :
  forallb (fun a => forallb (pairOk a) bytesRange) bytesRange = true.
Proof. vm_compute. reflexivity. Qed.

Lemma pairOk_all a b : 0 <= a < 256 -> 0 <= b < 256 -> pairOk a b = true.
Proof.
  intros A B. pose proof allPairs as H.
  rewrite forallb_forall in H. specialize (H a (inRange a A)).
  rewrite forallb_forall in H. exact (H b (inRange b B)).
Qed.

Lemma code_range c : 0 <= JS.code c < 256.
Proof. unfold JS.code. pose proof (nat_ascii_bounded c). lia. Qed.

Lemma byte_code c : Base64.byte (JS.code c) = c.
Proof.
  unfold Base64.byte, JS.code. rewrite Nat2Z.id. apply ascii_nat_embedding.
Qed.

Lemma known_sextets n r :
  known n = true ->
  Base64.sextets (String (Base64.char n) r) = n :: Base64.sextets r.
Proof.
  unfold known. simpl.
  destruct (Base64.unbase64 (Base64.char n)); [|discriminate].
  intros H. apply Z.eqb_eq in H. now subst.
Qed.

(** The sextets of three bytes are read back from their characters, and
    [Base64.bytes] rebuilds the bytes from them. *)
Lemma block_facts a b c :
  0 <= a < 256 -> 0 <= b < 256 -> 0 <= c < 256 ->
  known (sextet1 a) = true /\ known (sextet2 a b) = true
  /\ known (sextet3 b c) = true /\ known (sextet4 c) = true
  /\ Z.lor (Z.shiftl (sextet1 a) 2) (Z.shiftr (sextet2 a b) 4) = a
  /\ Z.lor (Z.shiftl (Z.land (sextet2 a b) 15) 4)
           (Z.shiftr (sextet3 b c) 2) = b
  /\ Z.lor (Z.shiftl (Z.land (sextet3 b c) 3) 6) (sextet4 c) = c.
Proof.
  intros A B C.
  pose proof (pairOk_all a b A B) as P1.
  pose proof (pairOk_all b c B C) as P2.
  pose proof (pairOk_all c c C C) as P3.
  unfold pairOk in P1, P2, P3.
  repeat match goal with
         | H : _ && _ = true |- _ => apply andb_prop in H as [? ?]
         | H : (_ =? _) = true |- _ => apply Z.eqb_eq in H
         | H : sextet _ = true |- _ => apply sextet_known in H
         end.
  repeat split; try assumption; congruence.
Qed.

Lemma decode_encode_le n : forall s,
  (String.length s <= n)%nat -> Base64.decode (Base64.encode s) = s.
Proof.
  unfold Base64.decode.
  induction n as [|n IH]; intros s L.
  - destruct s; [reflexivity | simpl in L; lia].
  - destruct s as [|a [|b [|c r]]]; [reflexivity | | |].
    + destruct (block_facts (JS.code a) 0 0 (code_range a))
        as (K1 & K2 & _ & _ & E1 & _); [lia | lia |].
      unfold sextet2 in K2, E1. change (Z.shiftr 0 4) with 0 in K2, E1.
      rewrite Z.lor_0_r in K2, E1.
      cbn [Base64.encode]. rewrite !known_sextets by assumption.
      change (Base64.sextets "==") with (@nil Z). cbn [Base64.bytes].
      unfold sextet1 in E1. rewrite E1. now rewrite byte_code.
    + destruct (block_facts (JS.code a) (JS.code b) 0
                  (code_range a) (code_range b))
        as (K1 & K2 & K3 & _ & E1 & E2 & _); [lia|].
      unfold sextet3 in K3, E2. change (Z.shiftr 0 6) with 0 in K3, E2.
      rewrite Z.lor_0_r in K3, E2.
      cbn [Base64.encode]. rewrite !known_sextets by assumption.
      change (Base64.sextets "=") with (@nil Z). cbn [Base64.bytes].
      unfold sextet1, sextet2 in E1, E2. rewrite E1, E2.
      now rewrite !byte_code.
    + destruct (block_facts (JS.code a) (JS.code b) (JS.code c)
                  (code_range a) (code_range b) (code_range c))
        as (K1 & K2 & K3 & K4 & E1 & E2 & E3).
      cbn [Base64.encode]. rewrite !known_sextets by assumption.
      cbn [Base64.bytes].
      unfold sextet1, sextet2, sextet3, sextet4 in E1, E2, E3.
      rewrite E1, E2, E3, !byte_code. f_equal. f_equal. f_equal.
      apply IH. simpl in L. lia.
Qed.

(** What [Buffer] encodes, it decodes to the same bytes. *)
Lemma decode_encode s : Base64.decode (Base64.encode s) = s.
Proof. apply (decode_encode_le (String.length s)). lia. Qed.

Lemma char_not_percent n : Ascii.eqb (Base64.char n) "%" = false.
Proof.
  unfold Base64.char. remember (Z.to_nat n) as k. clear Heqk n.
  do 64 (destruct k as [|k]; [reflexivity|]). reflexivity.
Qed.

Lemma encode_no_percent_le n : forall s,
  (String.length s <= n)%nat -> contains "%" (Base64.encode s) = false.
Proof.
  induction n as [|n IH]; intros s L.
  - destruct s; [reflexivity | simpl in L; lia].
  - destruct s as [|a [|b [|c r]]]; [reflexivity | | |];
      cbn [Base64.encode contains]; rewrite !char_not_percent;
      try reflexivity.
    simpl. apply IH. simpl in L. lia.
Qed.

Lemma split_whole c s : contains c s = false -> JS.split c s = [s].
Proof.
  induction s as [|d r IH]; simpl; [reflexivity|].
  intros H. apply orb_false_elim in H as [D R].
  rewrite D, (IH R). reflexivity.
Qed.

Lemma substring_all s : substring 0 (String.length s) s = s.
Proof. induction s as [|c r IH]; simpl; [reflexivity | now rewrite IH]. Qed.

Lemma encode_nonempty s : s <> "" -> Base64.encode s <> "".
Proof. destruct s as [|a [|b [|c r]]]; simpl; congruence. Qed.

Lemma content_prefix e : substring 0 9 (contentPath e) = "/content/".
Proof. destruct e; reflexivity. Qed.

Lemma content_rest e :
  substring 9 (String.length (contentPath e) - 9) (contentPath e) = e.
Proof.
  unfold contentPath. simpl. rewrite Nat.sub_0_r. apply substring_all.
Qed.

(** X3.  A payload that is not empty and whose base64 text holds no [/]
    is resolved: the content route answers the path that the fetcher
    builds for it with the payload itself, byte for byte. *)
Theorem reference_without_slash_resolves h :
  h <> "" -> contains "/" (Base64.encode h) = false ->
  getContent (contentPath (Base64.encode h)) = Html h.
Proof.
  intros N S. unfold getContent, contentParam.
  rewrite content_prefix, content_rest, (split_whole _ _ S).
  change (String.eqb (JS.toLowerCase "/content/") "/content/") with true.
  cbv iota.
  rewrite (encode_no_percent_le (String.length h)) by lia.
  destruct (Base64.encode h) eqn:He; [now apply encode_nonempty in N|].
  now rewrite <- He, decode_encode.
Qed.

Lemma reference_without_slash_resolves_witness :
  getContent (contentPath (Base64.encode "<p>hello</p>"))
  = Html "<p>hello</p>".
Proof.
  apply (reference_without_slash_resolves "<p>hello</p>");
    [discriminate | reflexivity].
Defined.

(* ================================================================= *)
(** ** The state invariant *)

Lemma lookup_store_other p q u db :
  q <> p -> lookup q (store p u db) = lookup q db.
Proof.
  intros N. induction db as [|[k v] r IH]; simpl.
  - destruct (String.eqb_spec p q); congruence.
  - destruct (String.eqb_spec k p) as [->|K]; simpl.
    + destruct (String.eqb_spec p q); congruence.
    + now rewrite IH.
Qed.

Lemma allWellFormed_store p u db :
  allWellFormed db -> wellFormed u -> allWellFormed (store p u db).
Proof.
  intros A W q v. destruct (string_dec q p) as [->|N].
  - rewrite lookup_store. now intros [= <-].
  - rewrite lookup_store_other by exact N. apply A.
Qed.

Lemma allWellFormed_update p field f db db' :
  allWellFormed db -> (forall u, wellFormed u -> wellFormed (f u)) ->
  update p field f db = Val db' -> allWellFormed db'.
Proof.
  intros A F. unfold update.
  destruct (lookup p db) as [u|] eqn:L; [|discriminate].
  intros [= <-]. apply allWellFormed_store; auto. apply F. eapply A; eauto.
Qed.

Lemma wellFormed_scaled k u :
  0 < k -> wellFormed u ->
  wellFormed
    (set_sendIntervals
       (map (fun interval => interval * k) (sendIntervals u)) u).
Proof.
  intros K (N & P & i & I & B). unfold wellFormed. simpl.
  split; [|split].
  - destruct (sendIntervals u); [congruence | discriminate].
  - apply Forall_map. apply Forall_impl with (2 := P). intros a A. nia.
  - exists i. rewrite length_map. auto.
Qed.

Lemma wellFormed_fresh now e :
  wellFormed (mkUser true [hour] (repeat 1 9) 0 e (Some now) (Some 0)).
Proof.
  unfold wellFormed. simpl. split; [discriminate|]. split.
  - constructor; [reflexivity | constructor].
  - exists 0. split; [reflexivity | lia].
Qed.

Lemma mapThrow_syncHours params : forall intervals,
  mapThrow syncHours params = Some intervals ->
  List.length intervals = List.length params
  /\ Forall (fun interval => 0 < interval) intervals.
Proof.
  induction params as [|s r IH]; simpl; intros intervals.
  - intros [= <-]. split; [reflexivity | constructor].
  - destruct (syncHours s) as [h|] eqn:S; [|discriminate].
    destruct (mapThrow syncHours r) as [hs|]; [|discriminate].
    intros [= <-]. destruct (IH hs eq_refl) as [L P]. simpl.
    split; [now rewrite L|]. constructor; [|exact P].
    unfold syncHours in S. destruct (JS.parseInt s) as [n|]; [|discriminate].
    destruct (Z.ltb_spec n 1); [discriminate|].
    destruct (72 <? n); [discriminate|]. simpl in S.
    injection S as <-. unfold hour. lia.
Qed.

Lemma wellFormed_synced intervals u :
  intervals <> [] -> Forall (fun interval => 0 < interval) intervals ->
  wellFormed (synced intervals u).
Proof.
  intros N P. unfold wellFormed. simpl. split; [exact N|]. split; [exact P|].
  exists 0. split; [reflexivity|].
  destruct intervals; [congruence|]. simpl. lia.
Qed.

Lemma split_nonempty c s : JS.split c s <> [].
Proof.
  induction s as [|d r IH]; simpl; [discriminate|].
  destruct (Ascii.eqb d c); [discriminate|].
  destruct (JS.split c r); [congruence | discriminate].
Qed.

Lemma split_single c s w : JS.split c s = [w] -> s = w.
Proof.
  revert w. induction s as [|d r IH]; simpl; intros w.
  - now intros [= <-].
  - destruct (Ascii.eqb d c).
    + intros [= <- H]. now apply split_nonempty in H.
    + destruct (JS.split c r) as [|v vs] eqn:S;
        [now apply split_nonempty in S|].
      intros [= <- ->]. f_equal. now apply IH.
Qed.

Lemma handleSync_keeps p params db r db' :
  params <> [] -> allWellFormed db ->
  handleSync p params db = Val (r, db') -> allWellFormed db'.
Proof.
  intros N A. unfold handleSync.
  destruct (mapThrow syncHours params) as [intervals|] eqn:M;
    [|now intros [= _ <-]].
  apply mapThrow_syncHours in M as [L P].
  unfold update.
  destruct (lookup p db) as [u|] eqn:H; [|now intros [= _ <-]].
  rewrite lookup_store. intros [= _ <-].
  intros q v. destruct (string_dec q p) as [->|Q].
  - rewrite lookup_store. intros [= <-].
    apply (wellFormed_synced intervals u); auto.
    destruct intervals; [|discriminate].
    destruct params; [congruence | discriminate].
  - rewrite !lookup_store_other by exact Q. apply A.
Qed.

(** The handler answered without writing: the store is the one it read. *)
Ltac unwritten := now intros [= _ <-].

(** The handler wrote one field that the invariant does not mention. *)
Ltac other_field A U :=
  intros [= _ <-];
  eapply allWellFormed_update; [exact A | | exact U];
  let v := fresh "v" in let W := fresh "W" in intros v W; exact W.

Lemma handleCommand_keeps now p command params db r db' :
  (command = "sync" -> params <> []) -> allWellFormed db ->
  handleCommand now p command params db = Val (r, db') -> allWellFormed db'.
Proof.
  intros N A. unfold handleCommand.
  destruct (String.eqb_spec command "begin") as [_|_].
  { unfold handleBegin. intros [= _ <-]. apply allWellFormed_store; auto.
    apply wellFormed_fresh. }
  destruct (String.eqb_spec command "stop") as [_|_].
  { unfold handleStop.
    destruct (nth_error params 0) as [kw|].
    - destruct (String.eqb kw "in" || String.eqb kw "for").
      + destruct (JS.parseIntArg (nth_error params 1)) as [hours|];
          [|unwritten].
        destruct (0 <? hours); [|unwritten].
        destruct (update p _ _ db) as [db1|] eqn:U; [|discriminate].
        other_field A U.
      + destruct (update p _ _ db) as [db1|] eqn:U; [|discriminate].
        other_field A U.
    - destruct (update p _ _ db) as [db1|] eqn:U; [|discriminate].
      other_field A U. }
  destruct (String.eqb_spec command "sync") as [S|_].
  { apply handleSync_keeps; auto. }
  destruct (String.eqb_spec command "slow") as [_|_].
  { unfold handleSlow.
    destruct (JS.parseIntArg (nth_error params 0)) as [factor|];
      [|unwritten].
    destruct (Z.leb_spec 0 factor) as [F|F]; simpl; [|unwritten].
    destruct (factor <=? 30); [|unwritten].
    unfold read, update.
    destruct (lookup p db) as [u|] eqn:L; [|discriminate].
    intros [= _ <-]. apply allWellFormed_store; auto.
    apply (wellFormed_scaled (1 + factor)); [lia | eapply A; eauto]. }
  destruct (String.eqb_spec command "lessons") as [_|_].
  { unfold handleLessons.
    destruct (mapThrow lessonNumber params); [|unwritten].
    destruct (update p _ _ db) as [db1|] eqn:U; [|unwritten].
    other_field A U. }
  destruct (String.eqb command "help"); unwritten.
Qed.

Lemma exact_under k i :
  1 <= k <= 31 -> exactNumber (i * 31) = true -> exactNumber (i * k) = true.
Proof.
  unfold exactNumber. rewrite !Z.leb_le, !Z.abs_mul.
  intros K H. rewrite (Z.abs_eq k) by lia. change (Z.abs 31) with 31 in H.
  pose proof (Z.abs_nonneg i). nia.
Qed.

Lemma exact_scaled k l :
  1 <= k <= 31 ->
  Forall (fun interval => exactNumber (interval * 31) = true) l ->
  Forall (fun interval => exactNumber interval = true)
         (map (fun interval => interval * k) l).
Proof.
  intros K P. apply Forall_map. apply Forall_impl with (2 := P).
  intros a. now apply exact_under.
Qed.

Lemma exact_kept l :
  Forall (fun interval => exactNumber (interval * 31) = true) l ->
  Forall (fun interval => exactNumber interval = true) l.
Proof.
  intros P. apply Forall_impl with (2 := P). intros a H.
  apply (exact_under 1) in H; [|lia]. now rewrite Z.mul_1_r in H.
Qed.

Lemma mapThrow_syncHours_exact params : forall intervals,
  mapThrow syncHours params = Some intervals ->
  Forall (fun interval => exactNumber interval = true) intervals.
Proof.
  induction params as [|s r IH]; simpl; intros intervals.
  - intros [= <-]. constructor.
  - destruct (syncHours s) as [h|] eqn:S; [|discriminate].
    destruct (mapThrow syncHours r) as [hs|]; [|discriminate].
    intros [= <-]. constructor; [|now apply IH].
    unfold syncHours in S. destruct (JS.parseInt s) as [n|]; [|discriminate].
    destruct (Z.ltb_spec n 1); [discriminate|].
    destruct (Z.ltb_spec 72 n); [discriminate|]. simpl in S.
    injection S as <-. unfold exactNumber, hour. apply Z.leb_le.
    rewrite Z.abs_eq by lia. change (2 ^ 53) with 9007199254740992. lia.
Qed.

Ltac sender_unwritten X :=
  intros [= _ <-] u' L'; apply exact_kept; apply X; congruence.

Ltac sender_other_field X L U :=
  unfold update in U; rewrite L in U; injection U as <-;
  intros [= _ <-] u' L'; rewrite lookup_store in L'; injection L' as <-;
  cbn [sendIntervals set_endTime set_active set_lessonWeights];
  apply exact_kept; now apply X.

Lemma handleCommand_stays_exact now p command params db r db' :
  (forall u, lookup p db = Some u ->
     Forall (fun interval => exactNumber (interval * 31) = true)
            (sendIntervals u)) ->
  handleCommand now p command params db = Val (r, db') ->
  forall u', lookup p db' = Some u' ->
  Forall (fun interval => exactNumber interval = true) (sendIntervals u').
Proof.
  intros X. unfold handleCommand.
  destruct (String.eqb_spec command "begin") as [_|_].
  { unfold handleBegin. intros [= _ <-] u' L'.
    rewrite lookup_store in L'. injection L' as <-.
    constructor; [reflexivity | constructor]. }
  destruct (String.eqb_spec command "stop") as [_|_].
  { unfold handleStop.
    destruct (nth_error params 0) as [kw|].
    - destruct (String.eqb kw "in" || String.eqb kw "for").
      + destruct (JS.parseIntArg (nth_error params 1)) as [hours|];
          [|sender_unwritten X].
        destruct (0 <? hours); [|sender_unwritten X].
        destruct (lookup p db) as [u|] eqn:L;
          [|unfold update; rewrite L; discriminate].
        destruct (update p _ _ db) as [db1|] eqn:U; [|discriminate].
        sender_other_field X L U.
      + destruct (lookup p db) as [u|] eqn:L;
          [|unfold update; rewrite L; discriminate].
        destruct (update p _ _ db) as [db1|] eqn:U; [|discriminate].
        sender_other_field X L U.
    - destruct (lookup p db) as [u|] eqn:L;
        [|unfold update; rewrite L; discriminate].
      destruct (update p _ _ db) as [db1|] eqn:U; [|discriminate].
      sender_other_field X L U. }
  destruct (String.eqb_spec command "sync") as [_|_].
  { unfold handleSync.
    destruct (mapThrow syncHours params) as [intervals|] eqn:M;
      [|sender_unwritten X].
    apply mapThrow_syncHours_exact in M.
    unfold update. destruct (lookup p db) as [u|] eqn:L;
      [|sender_unwritten X].
    rewrite lookup_store. intros [= _ <-] u' L'.
    rewrite lookup_store in L'. injection L' as <-. exact M. }
  destruct (String.eqb_spec command "slow") as [_|_].
  { unfold handleSlow.
    destruct (JS.parseIntArg (nth_error params 0)) as [factor|];
      [|sender_unwritten X].
    destruct (Z.leb_spec 0 factor) as [F0|F0]; cbn [andb];
      [|sender_unwritten X].
    destruct (Z.leb_spec factor 30) as [F30|F30]; [|sender_unwritten X].
    unfold read, update. destruct (lookup p db) as [u|] eqn:L; [|discriminate].
    intros [= _ <-] u' L'. rewrite lookup_store in L'. injection L' as <-.
    apply (exact_scaled (1 + factor)); [lia | now apply X]. }
  destruct (String.eqb_spec command "lessons") as [_|_].
  { unfold handleLessons.
    destruct (mapThrow lessonNumber params); [|sender_unwritten X].
    destruct (lookup p db) as [u|] eqn:L;
      [|unfold update; rewrite L; sender_unwritten X].
    destruct (update p _ _ db) as [db1|] eqn:U;
      [|unfold update in U; rewrite L in U; discriminate].
    sender_other_field X L U. }
  destruct (String.eqb command "help"); sender_unwritten X.
Qed.

(** What a text leaves of exact intervals is exact. *)
Lemma sender_stays_exact now message p db r db' :
  (forall u, lookup p db = Some u ->
     Forall (fun interval => exactNumber (interval * 31) = true)
            (sendIntervals u)) ->
  sms now message p db = Val (r, db') ->
  forall u', lookup p db' = Some u' ->
  Forall (fun interval => exactNumber interval = true) (sendIntervals u').
Proof.
  intros X. unfold sms.
  destruct (String.eqb (JS.toLowerCase message) "yes"
            || String.eqb (JS.toLowerCase message) "no").
  { destruct (lookup p db) as [u|] eqn:L; [|sender_unwritten X].
    destruct (100 <=? messageCount u); [|sender_unwritten X].
    destruct (String.eqb (JS.toLowerCase message) "yes");
      [|sender_unwritten X].
    intros [= _ <-] u' L'. rewrite lookup_store in L'. injection L' as <-.
    apply (exact_scaled 2); [lia | now apply X]. }
  destruct (JS.startsWith ":" message); [|sender_unwritten X].
  destruct (JS.split " " (JS.slice1 message)) as [|command params];
    [sender_unwritten X|].
  destruct (handleCommand now p command params db)
    as [[response db1]|e] eqn:H; [|discriminate].
  intros [= _ <-]. eapply handleCommand_stays_exact; eauto.
Qed.

(** X1.  Every inbound text other than [:sync] with no argument keeps the
    invariant of the store, as long as the intervals of the sender are
    exact numbers and stay so under the largest factor that a text can
    apply, the 31 of [:slow 30]: if every record has a cadence that is not
    empty, made of positive durations, with the index inside it, then so
    has every record after the text was handled.  (Past that bound the
    products of the program are rounded and end as [null], which is no
    positive duration.) *)
Theorem messages_keep_invariant now message p db r db' :
  message <> ":sync" -> allWellFormed db ->
  (forall u, lookup p db = Some u ->
     Forall (fun interval => exactNumber (interval * 31) = true)
            (sendIntervals u)) ->
  sms now message p db = Val (r, db') ->
  allWellFormed db'
  /\ forall u', lookup p db' = Some u' ->
       Forall (fun interval => exactNumber interval = true)
              (sendIntervals u').
Proof.
  intros N A X H.
  split; [revert H | exact (sender_stays_exact _ _ _ _ _ _ X H)].
  unfold sms.
  destruct (String.eqb (JS.toLowerCase message) "yes"
            || String.eqb (JS.toLowerCase message) "no").
  { destruct (lookup p db) as [u|] eqn:L; [|unwritten].
    destruct (100 <=? messageCount u); [|unwritten].
    destruct (String.eqb (JS.toLowerCase message) "yes");
      [|unwritten].
    intros [= _ <-]. apply allWellFormed_store; auto.
    apply (wellFormed_scaled 2); [lia | eapply A; eauto]. }
  destruct (JS.startsWith ":" message) eqn:C; [|unwritten].
  destruct (JS.split " " (JS.slice1 message)) as [|command params] eqn:S;
    [unwritten|].
  destruct (handleCommand now p command params db)
    as [[response db1]|e] eqn:H; [|discriminate].
  intros [= _ <-]. eapply handleCommand_keeps; eauto.
  intros -> ->. apply split_single in S.
  destruct message as [|c m]; [discriminate|]. simpl in C, S.
  apply Ascii.eqb_eq in C. subst. congruence.
Qed.

Lemma allWellFormed_one p u : wellFormed u -> allWellFormed [(p, u)].
Proof.
  intros W q v. simpl. destruct (String.eqb p q); [|discriminate].
  now intros [= <-].
Qed.

Lemma messages_keep_invariant_witness :
  exists r db',
    sms 0 ":slow 30" Sample.alice [(Sample.alice, Sample.fresh 0)]
    = Val (r, db')
    /\ allWellFormed db'
    /\ forall u', lookup Sample.alice db' = Some u' ->
         Forall (fun interval => exactNumber interval = true)
                (sendIntervals u').
Proof.
  eexists _, _. split; [vm_compute; reflexivity|].
  apply (messages_keep_invariant 0 ":slow 30" Sample.alice
           [(Sample.alice, Sample.fresh 0)]
           (Some "Message intervals have been increased by 30x.")).
  - discriminate.
  - apply allWellFormed_one. apply wellFormed_fresh.
  - intros u L. vm_compute in L. injection L as <-.
    constructor; [reflexivity | constructor].
  - vm_compute. reflexivity.
Defined.

Lemma wellFormed_advance now u : wellFormed u -> wellFormed (advance now u).
Proof.
  intros (N & P & i & I & B).
  assert (I' : currentIntervalIndex u = Some (Z.of_nat (Z.to_nat i)))
    by (rewrite Z2Nat.id by lia; exact I).
  destruct (advance_cycle now u (Z.to_nat i) I') as (S1 & I1 & _); [lia|].
  unfold wellFormed. rewrite S1, I1. split; [exact N|]. split; [exact P|].
  eexists. split; [reflexivity|].
  pose proof (Nat.mod_upper_bound (Z.to_nat i + 1)
                (List.length (sendIntervals u))).
  destruct (sendIntervals u); [congruence|]. simpl in *. lia.
Qed.

Lemma Visited_wellFormed E now p u c u' c' ev :
  Visited E now p u c u' c' ev -> wellFormed u -> wellFormed u'.
Proof. intros V W. destruct V; auto using wellFormed_advance. Qed.

(** A record of the scanned store is the visit of the record that the
    store had under the same key. *)
Lemma scan_lookup E now db : forall c db' c' ev,
  scan E now db c = (Val db', c', ev) ->
  forall q u', lookup q db' = Some u' ->
  exists u c0 c1 ev0,
    lookup q db = Some u /\ Visited E now q u c0 u' c1 ev0.
Proof.
  induction db as [|[p u] rest IH]; intros c db' c' ev; simpl.
  - unfold ret. intros [= <- _ _] q u'. discriminate.
  - destruct (visit_cases E now p u c) as (u1 & c1 & ev1 & V & W).
    rewrite V.
    destruct (scan E now rest c1) as [[[rest'|e] c2] ev2] eqn:S;
      [|discriminate].
    intros [= <- _ _] q u'. simpl.
    destruct (String.eqb_spec p q) as [->|N].
    + intros [= <-]. exists u, c, c1, ev1. split; [reflexivity | exact W].
    + eapply IH; eauto.
Qed.

(** X2.  The dispatch tick ends normally and keeps the invariant of the
    store: whatever the world answers, if every record has a cadence that
    is not empty, made of positive durations, with the index inside it,
    then so has every record of the store that the tick writes. *)
Theorem tick_keeps_invariant E now db c r db' c' ev :
  allWellFormed db ->
  sendScheduledMessages E now db c = (r, db', c', ev) ->
  r = Val tt /\ allWellFormed db'.
Proof.
  intros A. unfold sendScheduledMessages.
  destruct (scan_total E now db c) as (db1 & c1 & ev1 & S). rewrite S.
  intros [= <- <- _ _]. split; [reflexivity|].
  intros q u' L.
  destruct (scan_lookup _ _ _ _ _ _ _ S q u' L)
    as (u & c0 & c2 & ev0 & L0 & V).
  eapply Visited_wellFormed; eauto.
Qed.

Lemma tick_keeps_invariant_witness :
  exists db' c' ev,
    sendScheduledMessages (Sample.answering "<p>hi</p>") 0
      [(Sample.alice, Sample.fresh 0)] Sample.idle
    = (Val tt, db', c', ev)
    /\ allWellFormed db'.
Proof.
  eexists _, _, _. split; [vm_compute; reflexivity|].
  eapply (tick_keeps_invariant (Sample.answering "<p>hi</p>") 0
            [(Sample.alice, Sample.fresh 0)] Sample.idle).
  - apply allWellFormed_one. apply wellFormed_fresh.
  - vm_compute. reflexivity.
Defined.

(* ================================================================= *)
(** ** Further properties of the commands, the routes and the tick *)

(** Each attempt makes one request; a fetch with [n] retries left makes at
    most [n + 1] of them, and all of them when it fails. *)
Lemma fetchWithRetry_count E lw n : forall c r c' ev,
  fetchWithRetry E lw n c = (r, c', ev) ->
  (1 <= List.length ev <= S n)%nat
  /\ (forall e, r = Exn e -> List.length ev = S n).
Proof.
  induction n as [|n IH]; intros c r c' ev; simpl; unfold bind, tryCatch.
  - destruct (attempt E lw None c) as [[r0 c0] ev0] eqn:A.
    pose proof (attempt_events _ _ _ _ _ _ _ A) as [u ->].
    destruct r0 as [[content|k]|e]; simpl; intros H.
    + inversion H; subst. simpl. split; [lia | discriminate].
    + apply attempt_inr in A. discriminate.
    + inversion H; subst. simpl. split; [lia | reflexivity].
  - destruct (attempt E lw _ c) as [[r0 c0] ev0] eqn:A.
    pose proof (attempt_events _ _ _ _ _ _ _ A) as [u ->].
    destruct r0 as [[content|k]|e]; simpl.
    + intros H; inversion H; subst. simpl. split; [lia | discriminate].
    + apply attempt_inr in A. inversion A; subst k.
      destruct (fetchWithRetry E lw n c0) as [[r1 c1] ev1] eqn:F.
      intros H; inversion H; subst. simpl.
      destruct (IH _ _ _ _ F) as [B X]. split; [lia|].
      intros e' R. now rewrite (X e' R).
    + destruct (fetchWithRetry E lw n c0) as [[r1 c1] ev1] eqn:F.
      intros H; inversion H; subst. simpl.
      destruct (IH _ _ _ _ F) as [B X]. split; [lia|].
      intros e' R. now rewrite (X e' R).
Qed.

(** X5.  A fetch always returns, after at least one and at most eleven
    requests to the content API: the first attempt and up to [maxRetries],
    that is 10, retries.  It makes requests only, and when it fails it has
    made all eleven. *)
Theorem fetch_makes_at_most_eleven_requests E lessonWeights c :
  exists r c' ev,
    fetchArenaContent E lessonWeights c = (r, c', ev)
    /\ forallb isRequest ev = true
    /\ (1 <= List.length ev <= 11)%nat
    /\ (forall e, r = Exn e -> List.length ev = 11%nat).
Proof.
  destruct (fetchArenaContent E lessonWeights c) as [[r c'] ev] eqn:F.
  exists r, c', ev. split; [reflexivity|].
  split; [eapply fetchWithRetry_events; exact F|].
  exact (fetchWithRetry_count E lessonWeights maxRetries c r c' ev F).
Qed.

(** X6.  A subscriber whose [endTime] is set (and not 0) and has passed is
    not dispatched to: the visit calls nothing and stores the record with
    [active] false; any later visit of that record calls nothing either
    and leaves it as it is. *)
Theorem expired_subscriber_retired E now p u c e :
  endTime u = Some e -> e <> 0 -> e < now ->
  visit E now p (u, c) = (Val tt, (set_active false u, c), [])
  /\ forall later c2,
       visit E later p (set_active false u, c2)
       = (Val tt, (set_active false u, c2), []).
Proof.
  intros H N L. split.
  - rewrite visit_eq. unfold expired. rewrite H.
    destruct (Z.eqb_spec e 0); [contradiction|].
    destruct (Z.ltb_spec e now); [|lia].
    now rewrite orb_true_r.
  - intros later c2. rewrite visit_eq. reflexivity.
Qed.

Lemma expired_subscriber_retired_witness :
  let u := mkUser true [hour] (repeat 1 9) 7 (Some 500) (Some 0) (Some 0) in
  visit (Sample.answering "<p>hi</p>") 1000 Sample.alice (u, Sample.idle)
  = (Val tt, (set_active false u, Sample.idle), [])
  /\ forall later c2,
       visit (Sample.answering "<p>hi</p>") later Sample.alice
             (set_active false u, c2)
       = (Val tt, (set_active false u, c2), []).
Proof.
  cbv zeta.
  apply (expired_subscriber_retired (Sample.answering "<p>hi</p>") 1000
           Sample.alice _ Sample.idle 500);
    [reflexivity | discriminate | reflexivity].
Defined.

(** X11.  When the gateway accepts the nugget that makes [messageCount]
    100 and refuses the prompt that follows it, the refusal is caught: the
    visit ends normally with the cadence advanced and the count at 100,
    the prompt was handed to the gateway once, and no later visit hands it
    over again. *)
Theorem refused_prompt_not_retried E now p u c content c1 ev1 :
  negb (active u) || expired now u = false -> due now u = true ->
  fetchArenaContent E (lessonWeights u) c = (Val content, c1, ev1) ->
  gateway E (sends c1) p (nugget (url content)) = true ->
  messageCount u = 99 ->
  gateway E (S (sends c1)) p slowDownPrompt = false ->
  visit E now p (u, c)
  = (Val tt, (advance now u, sent (sent c1)),
     (ev1 ++ [Created p (nugget (url content)) true;
              Created p slowDownPrompt false])%list)
  /\ forall steps u' ev,
       visits E p steps (advance now u) = (u', ev) -> prompts p ev = 0%nat.
Proof.
  intros A D F G C R. split.
  - rewrite visit_eq, A, D, F. cbv zeta. rewrite G, R.
    change (messageCount (advance now u)) with (messageCount u + 1).
    rewrite C. reflexivity.
  - intros steps u' ev V.
    destruct (visits_prompts E p steps _ _ _ V) as [_ P]. rewrite P.
    change (messageCount (advance now u)) with (messageCount u + 1).
    rewrite C. reflexivity.
Qed.

Lemma refused_prompt_not_retried_witness :
  let E := Sample.refusingSecond "<p>hi</p>" in
  (exists c' ev,
      visit E 0 Sample.alice (Sample.fresh 99, Sample.idle)
      = (Val tt, (advance 0 (Sample.fresh 99), c'), ev)
      /\ prompts Sample.alice ev = 1%nat)
  /\ forall steps u' ev,
       visits E Sample.alice steps (advance 0 (Sample.fresh 99)) = (u', ev) ->
       prompts Sample.alice ev = 0%nat.
Proof.
  cbv zeta.
  destruct (refused_prompt_not_retried (Sample.refusingSecond "<p>hi</p>") 0
              Sample.alice (Sample.fresh 99) Sample.idle
              (mkContent "<p>hi</p>"
                 "http://localhost:3000/content/PHA+aGk8L3A+")
              (mkCalls 2 1 0)
              [Requested
                 "https://api.are.na/v2/channels/hoon-academy-0/contents"])
    as [V L]; try reflexivity.
  split; [|exact L].
  eexists _, _. split; [exact V | reflexivity].
Defined.

(* ================================================================= *)
(** ** What an inbound message may change *)

Lemma update_other p field f db db' q :
  update p field f db = Val db' -> q <> p -> lookup q db' = lookup q db.
Proof.
  unfold update. destruct (lookup p db); [|discriminate].
  intros [= <-] N. now apply lookup_store_other.
Qed.

Lemma update_kept p field f db db' :
  update p field f db = Val db' -> lookup p db <> None /\ lookup p db' <> None.
Proof.
  unfold update. destruct (lookup p db) eqn:L; [|discriminate].
  intros [= <-]. rewrite lookup_store. split; discriminate.
Qed.

Lemma wroteOwn_refl p db : wroteOwn p db db.
Proof. split; [auto | tauto]. Qed.

Lemma wroteOwn_update p field f db db' :
  update p field f db = Val db' -> wroteOwn p db db'.
Proof.
  intros U. split.
  - intros q N. eapply update_other; eauto.
  - apply update_kept in U as [A B]. tauto.
Qed.

Ltac same_store := intros [= _ <-]; apply wroteOwn_refl.

Lemma handleCommand_wroteOwn now p command params db r db' :
  command <> "begin" ->
  handleCommand now p command params db = Val (r, db') -> wroteOwn p db db'.
Proof.
  intros B. unfold handleCommand.
  destruct (String.eqb_spec command "begin") as [|_]; [contradiction|].
  destruct (String.eqb_spec command "stop") as [_|_].
  { unfold handleStop.
    destruct (nth_error params 0) as [kw|].
    - destruct (String.eqb kw "in" || String.eqb kw "for").
      + destruct (JS.parseIntArg (nth_error params 1)) as [hours|];
          [|same_store].
        destruct (0 <? hours); [|same_store].
        destruct (update p _ _ db) as [db1|] eqn:U; [|discriminate].
        intros [= _ <-]. eapply wroteOwn_update; eauto.
      + destruct (update p _ _ db) as [db1|] eqn:U; [|discriminate].
        intros [= _ <-]. eapply wroteOwn_update; eauto.
    - destruct (update p _ _ db) as [db1|] eqn:U; [|discriminate].
      intros [= _ <-]. eapply wroteOwn_update; eauto. }
  destruct (String.eqb_spec command "sync") as [_|_].
  { unfold handleSync.
    destruct (mapThrow syncHours params) as [intervals|]; [|same_store].
    destruct (update p _ _ db) as [db1|] eqn:U1; [|same_store].
    destruct (update p _ _ db1) as [db2|] eqn:U2; [|same_store].
    intros [= _ <-].
    apply wroteOwn_update in U1 as [A1 B1], U2 as [A2 B2].
    split; [|tauto].
    intros q N. now rewrite A2, A1. }
  destruct (String.eqb_spec command "slow") as [_|_].
  { unfold handleSlow.
    destruct (JS.parseIntArg (nth_error params 0)) as [factor|];
      [|same_store].
    destruct ((0 <=? factor) && (factor <=? 30)); [|same_store].
    destruct (read p _ db) as [u|]; [|discriminate].
    destruct (update p _ _ db) as [db1|] eqn:U; [|discriminate].
    intros [= _ <-]. eapply wroteOwn_update; eauto. }
  destruct (String.eqb_spec command "lessons") as [_|_].
  { unfold handleLessons.
    destruct (mapThrow lessonNumber params); [|same_store].
    destruct (update p _ _ db) as [db1|] eqn:U; [|same_store].
    intros [= _ <-]. eapply wroteOwn_update; eauto. }
  destruct (String.eqb command "help"); same_store.
Qed.

Lemma both_keys : NoDup (map fst Sample.both).
Proof.
  apply NoDup_cons; [|apply NoDup_cons; [intros [] | apply NoDup_nil]].
  intros [H|[]]. vm_compute in H. discriminate H.
Qed.

(** X12.  An inbound text is handled for its sender alone: the record of
    every other identity is left as it was; a record is never removed;
    and a sender that had no record has one afterwards only if the text
    was a [:begin]. *)
Theorem message_touches_only_sender now message p db r db' :
  sms now message p db = Val (r, db') ->
  (forall q, q <> p -> lookup q db' = lookup q db)
  /\ (lookup p db <> None -> lookup p db' <> None)
  /\ (lookup p db = None -> lookup p db' <> None ->
      exists params, JS.split " " (JS.slice1 message) = "begin" :: params).
Proof.
  unfold sms.
  destruct (String.eqb (JS.toLowerCase message) "yes"
            || String.eqb (JS.toLowerCase message) "no").
  { destruct (lookup p db) as [u|] eqn:L.
    - destruct (100 <=? messageCount u).
      + destruct (String.eqb (JS.toLowerCase message) "yes").
        * intros [= _ <-]. split; [|split].
          -- intros q N. now apply lookup_store_other.
          -- intros _. rewrite lookup_store. discriminate.
          -- discriminate.
        * intros [= _ <-]. rewrite L. repeat split; auto; discriminate.
      + intros [= _ <-]. rewrite L. repeat split; auto; discriminate.
    - intros [= _ <-]. rewrite L. repeat split; auto; contradiction. }
  destruct (JS.startsWith ":" message).
  2: { intros [= _ <-]. repeat split; auto; contradiction. }
  destruct (JS.split " " (JS.slice1 message)) as [|command params] eqn:S.
  { intros [= _ <-]. repeat split; auto; contradiction. }
  destruct (handleCommand now p command params db)
    as [[response db1]|e] eqn:H; [|discriminate].
  intros [= _ <-].
  destruct (String.eqb_spec command "begin") as [->|B].
  - unfold handleCommand, handleBegin in H. simpl in H.
    injection H as _ <-. split; [|split].
    + intros q N. now apply lookup_store_other.
    + intros _. rewrite lookup_store. discriminate.
    + intros _ _. eauto.
  - apply handleCommand_wroteOwn in H as [A C]; [|exact B].
    split; [exact A|]. split; [tauto|].
    intros L N. apply C in L. contradiction.
Qed.

Lemma message_touches_only_sender_witness :
  exists r db',
    sms 0 ":slow 2" Sample.alice Sample.both = Val (r, db')
    /\ (forall q, q <> Sample.alice -> lookup q db' = lookup q Sample.both)
    /\ (lookup Sample.alice Sample.both <> None ->
        lookup Sample.alice db' <> None)
    /\ (lookup Sample.alice Sample.both = None ->
        lookup Sample.alice db' <> None ->
        exists params,
          JS.split " " (JS.slice1 ":slow 2") = "begin" :: params).
Proof.
  eexists _, _. split; [vm_compute; reflexivity|].
  apply (message_touches_only_sender 0 ":slow 2" Sample.alice Sample.both
           (Some "Message intervals have been increased by 2x.")).
  vm_compute. reflexivity.
Defined.

Lemma sameProgress_refl u : sameProgress u u.
Proof. unfold sameProgress. auto. Qed.

Ltac answered_unchanged L :=
  eexists _, _, _; split; [reflexivity|]; split; [exact L|];
  apply sameProgress_refl.

Ltac answered_updated L :=
  rewrite (update_found _ _ _ _ _ L);
  eexists _, _, _; split; [reflexivity|]; split; [apply lookup_store|];
  unfold sameProgress; simpl; auto.

Lemma handleCommand_registered now p command params db u :
  lookup p db = Some u -> command <> "begin" ->
  exists r db' u',
    handleCommand now p command params db = Val (r, db')
    /\ lookup p db' = Some u' /\ sameProgress u u'.
Proof.
  intros L B. unfold handleCommand.
  destruct (String.eqb_spec command "begin") as [|_]; [contradiction|].
  destruct (String.eqb_spec command "stop") as [_|_].
  { unfold handleStop.
    destruct (nth_error params 0) as [kw|].
    - destruct (String.eqb kw "in" || String.eqb kw "for").
      + destruct (JS.parseIntArg (nth_error params 1)) as [hours|];
          [|answered_unchanged L].
        destruct (0 <? hours); [|answered_unchanged L].
        answered_updated L.
      + answered_updated L. intuition discriminate.
    - answered_updated L. intuition discriminate. }
  destruct (String.eqb_spec command "sync") as [_|_].
  { unfold handleSync.
    destruct (mapThrow syncHours params) as [intervals|];
      [|answered_unchanged L].
    rewrite (update_found _ _ _ _ _ L).
    rewrite (update_found _ _ _ _ _ (lookup_store _ _ _)).
    eexists _, _, _; split; [reflexivity|]; split; [apply lookup_store|].
    unfold sameProgress; simpl; auto. }
  destruct (String.eqb_spec command "slow") as [_|_].
  { unfold handleSlow.
    destruct (JS.parseIntArg (nth_error params 0)) as [factor|];
      [|answered_unchanged L].
    destruct ((0 <=? factor) && (factor <=? 30)); [|answered_unchanged L].
    unfold read. rewrite L. answered_updated L. }
  destruct (String.eqb_spec command "lessons") as [_|_].
  { unfold handleLessons.
    destruct (mapThrow lessonNumber params); [|answered_unchanged L].
    answered_updated L. }
  destruct (String.eqb command "help"); answered_unchanged L.
Qed.

Lemma sms_registered now message p db u :
  lookup p db = Some u ->
  exists r db' u',
    sms now message p db = Val (r, db') /\ lookup p db' = Some u'
    /\ ((exists params,
            JS.startsWith ":" message = true
            /\ JS.split " " (JS.slice1 message) = "begin" :: params)
        \/ sameProgress u u').
Proof.
  intros L. unfold sms.
  destruct (String.eqb (JS.toLowerCase message) "yes"
            || String.eqb (JS.toLowerCase message) "no").
  { rewrite L. destruct (100 <=? messageCount u).
    - destruct (String.eqb (JS.toLowerCase message) "yes").
      + eexists _, _, _. split; [reflexivity|].
        split; [apply lookup_store|]. right. unfold sameProgress. simpl. auto.
      + eexists _, _, _. split; [reflexivity|]. split; [exact L|].
        right. apply sameProgress_refl.
    - eexists _, _, _. split; [reflexivity|]. split; [exact L|].
      right. apply sameProgress_refl. }
  destruct (JS.startsWith ":" message) eqn:C.
  2: { eexists _, _, _. split; [reflexivity|]. split; [exact L|].
       right. apply sameProgress_refl. }
  destruct (JS.split " " (JS.slice1 message)) as [|command params] eqn:S.
  { eexists _, _, _. split; [reflexivity|]. split; [exact L|].
    right. apply sameProgress_refl. }
  destruct (String.eqb_spec command "begin") as [->|B].
  - unfold handleCommand, handleBegin. simpl.
    eexists _, _, _. split; [reflexivity|]. split; [apply lookup_store|].
    left. eauto.
  - destruct (handleCommand_registered now p command params db u L B)
      as (r & db' & u' & -> & L' & P).
    eexists _, _, _. split; [reflexivity|]. split; [exact L'|]. now right.
Qed.

(** X17.  For a sender that has a record, the [/sms] route never throws:
    whatever the text, the route ends with an answer, and the sender still
    has a record. *)
Theorem registered_sender_is_answered now message p db u :
  lookup p db = Some u ->
  exists r db', sms now message p db = Val (r, db')
                /\ lookup p db' <> None.
Proof.
  intros L.
  destruct (sms_registered now message p db u L) as (r & db' & u' & H & L' & _).
  exists r, db'. split; [exact H|]. rewrite L'. discriminate.
Qed.

Lemma registered_sender_is_answered_witness :
  exists r db',
    sms 0 ":help" Sample.alice Sample.both = Val (r, db')
    /\ lookup Sample.alice db' <> None.
Proof.
  apply (registered_sender_is_answered 0 ":help" Sample.alice Sample.both
           (Sample.fresh 0)).
  reflexivity.
Defined.

(** X18.  No text but [:begin] touches the progress of its sender: the
    count of messages and the time of the next send are left as they
    were, and a subscriber that was not active is not active afterwards.
    [:sync], [:slow], [:lessons] and "yes" change the cadence or the
    lessons only; the send that is pending stays where it was. *)
Theorem only_begin_resets_progress now message p db u r db' :
  lookup p db = Some u ->
  (forall params, JS.split " " (JS.slice1 message) <> "begin" :: params) ->
  sms now message p db = Val (r, db') ->
  exists u',
    lookup p db' = Some u'
    /\ messageCount u' = messageCount u
    /\ nextSendTime u' = nextSendTime u
    /\ (active u' = true -> active u = true).
Proof.
  intros L N H.
  destruct (sms_registered now message p db u L)
    as (r0 & db0 & u' & H0 & L' & [(params & _ & S)|P]).
  - now apply N in S.
  - rewrite H in H0. injection H0 as -> ->. exists u'. split; [exact L'|].
    exact P.
Qed.

Lemma only_begin_resets_progress_witness :
  exists r db',
    sms 0 ":sync 2" Sample.alice Sample.both = Val (r, db')
    /\ exists u',
         lookup Sample.alice db' = Some u'
         /\ messageCount u' = messageCount (Sample.fresh 0)
         /\ nextSendTime u' = nextSendTime (Sample.fresh 0)
         /\ (active u' = true -> active (Sample.fresh 0) = true).
Proof.
  eexists _, _. split; [vm_compute; reflexivity|].
  apply (only_begin_resets_progress 0 ":sync 2" Sample.alice Sample.both
           (Sample.fresh 0)
           (Some "Messages will now be sent with intervals: 2 hours")).
  - reflexivity.
  - intros params H. vm_compute in H. discriminate H.
  - vm_compute. reflexivity.
Defined.

(* ================================================================= *)
(** ** The commands, one by one *)

Lemma syncHours_Some s i :
  syncHours s = Some i <-> exists h, validHours s h /\ i = h * hour.
Proof.
  unfold syncHours, validHours. split.
  - destruct (JS.parseInt s) as [h|]; [|discriminate].
    destruct (Z.ltb_spec h 1); [discriminate|].
    destruct (Z.ltb_spec 72 h); [discriminate|]. simpl.
    intros [= <-]. exists h. repeat split; auto; lia.
  - intros (h & [-> R] & ->).
    destruct (Z.ltb_spec h 1); [lia|].
    destruct (Z.ltb_spec 72 h); [lia|]. reflexivity.
Qed.

Lemma mapThrow_Some {A B} (f : A -> option B) xs : forall ys,
  mapThrow f xs = Some ys <-> Forall2 (fun x y => f x = Some y) xs ys.
Proof.
  induction xs as [|x r IH]; intros ys; simpl.
  - split; [intros [= <-]; constructor | inversion 1; reflexivity].
  - split.
    + destruct (f x) as [y|] eqn:F; [|discriminate].
      destruct (mapThrow f r) as [zs|]; [|discriminate].
      intros [= <-]. constructor; [exact F | now apply IH].
    + inversion 1 as [|? y ? zs F R]; subst. rewrite F.
      apply IH in R. now rewrite R.
Qed.

Lemma mapThrow_None {A B} (f : A -> option B) xs :
  mapThrow f xs = None <-> exists x, In x xs /\ f x = None.
Proof.
  induction xs as [|x r IH]; simpl.
  - split; [discriminate | intros (x & [] & _)].
  - destruct (f x) as [y|] eqn:F.
    + destruct (mapThrow f r) as [zs|].
      * split; [discriminate|]. intros (z & [<-|I] & N); [congruence|].
        assert (Q : Some zs = None) by (apply IH; eauto). discriminate.
      * split; [|reflexivity]. intros _.
        destruct (proj1 IH eq_refl) as (z & I & N). eauto.
    + split; [|reflexivity]. intros _. exists x. auto.
Qed.

(** X8.  [:sync] is all or nothing.  When the sender has a record and
    every argument reads as a number of hours between 1 and 72, the
    intervals are stored in the order given, in milliseconds, with the
    index 0.  When the sender has no record, or one argument does not read
    as such a number, the answer is the validation text and the store is
    left as it was: no interval of the command is kept. *)
Theorem sync_all_or_nothing p params db :
  (forall u intervals,
      lookup p db = Some u ->
      Forall2 (fun s i => exists h, validHours s h /\ i = h * hour)
              params intervals ->
      exists db',
        handleSync p params db
        = Val ("Messages will now be sent with intervals: "
                 ++ JS.join ", " params ++ " hours", db')
        /\ lookup p db' = Some (synced intervals u))
  /\ (lookup p db = None
      \/ (exists s, In s params /\ forall h, ~ validHours s h) ->
      handleSync p params db = Val (badIntervals, db)).
Proof.
  split.
  - intros u intervals L F. apply handleSync_found; [exact L|].
    apply mapThrow_Some. eapply Forall2_impl; [|exact F].
    intros s i H. now apply syncHours_Some.
  - intros H. unfold handleSync.
    destruct (mapThrow syncHours params) as [intervals|] eqn:M; [|reflexivity].
    destruct H as [L|(s & I & N)].
    + unfold update. now rewrite L.
    + exfalso. assert (Q : mapThrow syncHours params = None).
      { apply mapThrow_None. exists s. split; [exact I|].
        destruct (syncHours s) as [i|] eqn:S; [|reflexivity].
        apply syncHours_Some in S as (h & V & _). now apply N in V. }
      congruence.
Qed.

Lemma sync_all_or_nothing_witness :
  (exists db',
      handleSync Sample.alice ["1"; "2"] Sample.both
      = Val ("Messages will now be sent with intervals: 1, 2 hours", db')
      /\ lookup Sample.alice db'
         = Some (synced [hour; 2 * hour] (Sample.fresh 0)))
  /\ handleSync Sample.alice ["1"; "100"] Sample.both
     = Val (badIntervals, Sample.both).
Proof.
  split.
  - apply (proj1 (sync_all_or_nothing Sample.alice ["1"; "2"] Sample.both)
                 (Sample.fresh 0)
                 [hour; 2 * hour]); [reflexivity|].
    constructor; [exists 1; split; [split; [reflexivity | lia] | reflexivity]|].
    constructor; [exists 2; split; [split; [reflexivity | lia] | reflexivity]|].
    constructor.
  - apply (proj2 (sync_all_or_nothing Sample.alice ["1"; "100"] Sample.both)).
    right. exists "100". split; [simpl; auto|].
    intros h [P R]. vm_compute in P. injection P as <-. lia.
Defined.

Lemma setAt_length j v : forall w, List.length (setAt j v w) = List.length w.
Proof.
  induction j as [|j IH]; intros [|x w]; simpl; auto.
Qed.

Lemma setAt_nth j v : forall w i,
  (j < List.length w)%nat ->
  nth i (setAt j v w) 0 = if (i =? j)%nat then v else nth i w 0.
Proof.
  induction j as [|j IH]; intros [|x w] i L; simpl in *; try lia.
  - destruct i; reflexivity.
  - destruct i; simpl; [reflexivity|]. apply IH. lia.
Qed.

Lemma fold_setAt selections : forall w,
  List.length w = 9%nat -> Forall (fun n => 0 <= n <= 8) selections ->
  let w' := fold_left (fun ws lessonNum => setAt (Z.to_nat lessonNum) 1 ws)
                      selections w in
  List.length w' = 9%nat
  /\ forall i, nth i w' 0
               = if existsb (Z.eqb (Z.of_nat i)) selections then 1
                 else nth i w 0.
Proof.
  induction selections as [|n r IH]; intros w L F; simpl.
  - auto.
  - inversion F as [|? ? R F']; subst.
    destruct (IH (setAt (Z.to_nat n) 1 w)) as [L' N'];
      [now rewrite setAt_length | exact F' |].
    split; [exact L'|]. intros i. rewrite N'.
    rewrite setAt_nth by lia.
    destruct (existsb (Z.eqb (Z.of_nat i)) r); [now rewrite orb_true_r|].
    rewrite orb_false_r.
    destruct (Nat.eqb_spec i (Z.to_nat n)) as [->|Q].
    + rewrite Z2Nat.id by lia. now rewrite Z.eqb_refl.
    + destruct (Z.eqb_spec (Z.of_nat i) n) as [<-|_]; [|reflexivity].
      rewrite Nat2Z.id in Q. congruence.
Qed.

Lemma activeIndices_from w : forall k,
  JS.dropNull
    (JS.mapi_from (fun w i => if w =? 1 then Some (Z.of_nat i) else None) k w)
  = filter (fun i => nth (Z.to_nat i - k) w 0 =? 1)
           (map Z.of_nat (seq k (List.length w))).
Proof.
  induction w as [|x r IH]; intros k; [reflexivity|].
  cbn [JS.mapi_from List.length seq map filter].
  rewrite Nat2Z.id, Nat.sub_diag. change (nth 0 (x :: r) 0) with x.
  assert (T : filter (fun i => nth (Z.to_nat i - k) (x :: r) 0 =? 1)
                     (map Z.of_nat (seq (S k) (List.length r)))
              = filter (fun i => nth (Z.to_nat i - S k) r 0 =? 1)
                       (map Z.of_nat (seq (S k) (List.length r)))).
  { apply filter_ext_in. intros i I. apply in_map_iff in I as (j & <- & J).
    apply in_seq in J. rewrite Nat2Z.id.
    replace (j - k)%nat with (S (j - S k)) by lia. reflexivity. }
  destruct (x =? 1); cbn [JS.dropNull]; rewrite IH, T; reflexivity.
Qed.

Lemma activeIndices_nine w :
  List.length w = 9%nat ->
  activeIndices w = filter (fun i => nth (Z.to_nat i) w 0 =? 1) lessonNumbers.
Proof.
  intros L. unfold activeIndices, JS.mapi. rewrite activeIndices_from, L.
  apply filter_ext. intros i. now rewrite Nat.sub_0_r.
Qed.

(** X4.  For a sender that has a record and arguments that read as
    lesson numbers between 0 and 8, [:lessons] stores nine weights, 1 for
    the lessons named and 0 for the others, whatever was stored before;
    the answer names the lessons in ascending order, once each; and a
    status query whose body passes the validation reports the same
    lessons as [activeLessons]. *)
Theorem lessons_select_and_status p params db u selections :
  lookup p db = Some u ->
  Forall2 (fun s n => JS.parseInt s = Some n /\ 0 <= n <= 8)
          params selections ->
  exists db' weights,
    handleLessons p params db
    = Val ("Now sending content from lessons: "
             ++ JS.join ", " (map JS.showZ (chosen selections)), db')
    /\ lookup p db' = Some (set_lessonWeights weights u)
    /\ List.length weights = 9%nat
    /\ (forall i, nth i weights 0
                  = if existsb (Z.eqb (Z.of_nat i)) selections then 1 else 0)
    /\ forall now body,
         validatePhoneNumber body = true ->
         getStatus now (mkStatusRequest p body) db'
         = Status (active u) (messageCount u)
             (Z.max 0 (match nextSendTime u with Some t => t | None => 0 end
                       - now))
             (chosen selections).
Proof.
  intros L F.
  assert (M : mapThrow lessonNumber params = Some selections).
  { apply mapThrow_Some. eapply Forall2_impl; [|exact F].
    intros s n [P R]. unfold lessonNumber. rewrite P.
    destruct (Z.ltb_spec n 0); [lia|]. destruct (Z.ltb_spec 8 n); [lia|].
    reflexivity. }
  assert (R : Forall (fun n => 0 <= n <= 8) selections).
  { clear -F. induction F as [|s n ? ? [_ H] _ IH]; constructor; auto. }
  destruct (fold_setAt selections (repeat 0 9) eq_refl R) as [L9 N].
  set (weights := fold_left (fun ws lessonNum =>
                               setAt (Z.to_nat lessonNum) 1 ws)
                            selections (repeat 0 9)) in *.
  assert (N0 : forall i, nth i weights 0
                 = if existsb (Z.eqb (Z.of_nat i)) selections then 1 else 0).
  { intros i. rewrite N.
    destruct (existsb (Z.eqb (Z.of_nat i)) selections); [reflexivity|].
    do 9 (destruct i as [|i]; [reflexivity|]). now destruct i. }
  assert (A : activeIndices weights = chosen selections).
  { rewrite (activeIndices_nine _ L9). unfold chosen.
    apply filter_ext_in. intros i I. rewrite N0.
    assert (0 <= i) by (unfold lessonNumbers in I; simpl in I; lia).
    rewrite Z2Nat.id by lia.
    now destruct (existsb (Z.eqb i) selections). }
  exists (store p (set_lessonWeights weights u) db), weights.
  split; [|split; [apply lookup_store | split; [exact L9 | split;
                                                  [exact N0|]]]].
  - unfold handleLessons. rewrite M. fold weights.
    rewrite (update_found _ _ _ _ _ L). now rewrite A.
  - intros now body V. unfold getStatus. simpl. rewrite V, lookup_store.
    simpl. now rewrite A.
Qed.

Lemma lessons_select_and_status_witness :
  exists db' weights,
    handleLessons Sample.alice ["2"; "0"; "2"] Sample.both
    = Val ("Now sending content from lessons: 0, 2", db')
    /\ lookup Sample.alice db'
       = Some (set_lessonWeights weights (Sample.fresh 0))
    /\ List.length weights = 9%nat
    /\ (forall i, nth i weights 0
                  = if existsb (Z.eqb (Z.of_nat i)) [2; 0; 2] then 1 else 0)
    /\ forall now body,
         validatePhoneNumber body = true ->
         getStatus now (mkStatusRequest Sample.alice body) db'
         = Status true 0 (Z.max 0 (0 - now)) [0; 2].
Proof.
  apply (lessons_select_and_status Sample.alice ["2"; "0"; "2"] Sample.both
           (Sample.fresh 0) [2; 0; 2]);
    [reflexivity|].
  repeat (constructor; [split; [reflexivity | lia]|]). constructor.
Defined.

Lemma hour_pos : 0 < hour.
Proof. reflexivity. Qed.

(** X7.  [:begin] creates the record or replaces it, whatever it held:
    active, hourly, all nine lessons, no message counted, due from the
    moment of the command on.  This is stated for a time and for hours
    that are exact numbers, together with the end [now + h] hours that
    the handler computes of them, so that the end is stored as it is
    computed.  The tick takes the subscription as expired exactly when
    the first argument reads as a number of hours [h] other than 0 and the
    time is past that end (and the end is not the time 0): with no
    argument, an argument that is no number, or 0, the subscription never
    expires; with negative hours it has expired as soon as it begins. *)
Theorem begin_subscription_window now p params db :
  exactNumber now = true ->
  (forall h, JS.parseIntArg (nth_error params 0) = Some h ->
     exactNumber (h * hour) = true /\ exactNumber (now + h * hour) = true) ->
  exists u,
    handleBegin now p params db = Val (started, store p u db)
    /\ wellFormed u /\ active u = true /\ messageCount u = 0
    /\ sendIntervals u = [hour] /\ lessonWeights u = repeat 1 9
    /\ (forall e, endTime u = Some e -> exactNumber e = true)
    /\ (forall now', due now' u = true <-> now <= now')
    /\ (forall now', expired now' u = true <->
          exists h, JS.parseIntArg (nth_error params 0) = Some h
                    /\ h <> 0 /\ now + h * hour <> 0
                    /\ now + h * hour < now').
Proof.
  intros _ X. unfold handleBegin.
  set (hours := if JS.truthyStr (nth_error params 0)
                then JS.parseIntArg (nth_error params 0) else None).
  assert (H : hours = JS.parseIntArg (nth_error params 0)).
  { unfold hours. destruct (nth_error params 0) as [[|c s]|]; reflexivity. }
  clearbody hours. subst hours.
  eexists. split; [reflexivity|].
  split; [apply wellFormed_fresh|].
  do 4 (split; [reflexivity|]). split; [|split].
  - intros e. cbn [endTime].
    destruct (JS.parseIntArg (nth_error params 0)) as [h|]; [|discriminate].
    destruct (h =? 0); [discriminate|]. intros [= <-].
    now apply (X h).
  - intros now'. unfold due. simpl. apply Z.leb_le.
  - intros now'. unfold expired. cbn [endTime].
    destruct (JS.parseIntArg (nth_error params 0)) as [h|].
    + destruct (Z.eqb_spec h 0) as [Z0|N].
      * split; [discriminate|]. intros (k & [= <-] & N & _). congruence.
      * destruct (Z.eqb_spec (now + h * hour) 0) as [Z1|Z1]; simpl.
        -- split; [discriminate|]. intros (k & [= <-] & _ & Q & _).
           congruence.
        -- rewrite Z.ltb_lt. split.
           ++ intros Lt. exists h. auto.
           ++ now intros (k & [= <-] & _ & _ & Lt).
    + split; [discriminate|]. intros (h & Q & _). discriminate.
Qed.

Lemma begin_subscription_window_witness :
  exists u,
    handleBegin 1000000 Sample.alice ["-3"] Sample.both
    = Val (started, store Sample.alice u Sample.both)
    /\ wellFormed u /\ active u = true /\ messageCount u = 0
    /\ sendIntervals u = [hour] /\ lessonWeights u = repeat 1 9
    /\ (forall e, endTime u = Some e -> exactNumber e = true)
    /\ (forall now', due now' u = true <-> 1000000 <= now')
    /\ (forall now', expired now' u = true <->
          exists h, JS.parseIntArg (nth_error ["-3"] 0) = Some h
                    /\ h <> 0 /\ 1000000 + h * hour <> 0
                    /\ 1000000 + h * hour < now').
Proof.
  apply (begin_subscription_window 1000000 Sample.alice ["-3"] Sample.both);
    [reflexivity|].
  intros h H. vm_compute in H. injection H as <-. split; reflexivity.
Defined.

(** X9.  [:stop in h] and [:stop for h], for a sender that has a record and
    [h > 0], only set the end of the subscription to [now + h] hours: the
    subscriber stays as active as it was, is not expired up to that time,
    and the first visit of the tick after it retires the subscriber
    without calling anything.  This is stated for an end that is an exact
    number, and so are then the time and the hours: the answer names the
    hours as they were read, and the end is stored as it is computed. *)
Theorem stop_in_hours_expires now p kw arg rest db u h :
  lookup p db = Some u -> kw = "in" \/ kw = "for" ->
  JS.parseInt arg = Some h -> 0 < h -> 0 <= now ->
  exactNumber (now + h * hour) = true ->
  let u' := set_endTime (Some (now + h * hour)) u in
  handleStop now p (kw :: arg :: rest) db
  = Val ("Service will stop in " ++ JS.showZ h ++ " hours.", store p u' db)
  /\ active u' = active u
  /\ exactNumber h = true /\ exactNumber (h * hour) = true
  /\ (forall now', expired now' u' = true <-> now + h * hour < now')
  /\ forall E now' c,
       now + h * hour < now' ->
       visit E now' p (u', c) = (Val tt, (set_active false u', c), []).
Proof.
  intros L K P H N B u'.
  assert (Xh : exactNumber h = true /\ exactNumber (h * hour) = true).
  { revert B. unfold exactNumber, hour. rewrite !Z.leb_le. lia. }
  assert (X : forall now', expired now' u' = true <-> now + h * hour < now').
  { intros now'. unfold expired, u'. simpl.
    pose proof hour_pos.
    destruct (Z.eqb_spec (now + h * hour) 0); [nia|]. simpl.
    apply Z.ltb_lt. }
  split; [|split; [reflexivity|]].
  2: split; [apply Xh|]; split; [apply Xh|]; split; [exact X|].
  - unfold handleStop. simpl.
    assert (Q : String.eqb kw "in" || String.eqb kw "for" = true)
      by (destruct K as [-> | ->]; reflexivity).
    rewrite Q, P. destruct (Z.ltb_spec 0 h); [|lia].
    now rewrite (update_found _ _ _ _ _ L).
  - intros E now' c Lt. rewrite visit_eq. apply X in Lt. rewrite Lt.
    now rewrite orb_true_r.
Qed.

Lemma stop_in_hours_expires_witness :
  let u' := set_endTime (Some (1000 + 2 * hour)) (Sample.fresh 0) in
  handleStop 1000 Sample.alice ["in"; "2"] Sample.both
  = Val ("Service will stop in " ++ JS.showZ 2 ++ " hours.",
         store Sample.alice u' Sample.both)
  /\ active u' = active (Sample.fresh 0)
  /\ exactNumber 2 = true /\ exactNumber (2 * hour) = true
  /\ (forall now', expired now' u' = true <-> 1000 + 2 * hour < now')
  /\ forall E now' c,
       1000 + 2 * hour < now' ->
       visit E now' Sample.alice (u', c)
       = (Val tt, (set_active false u', c), []).
Proof.
  apply (stop_in_hours_expires 1000 Sample.alice "in" "2" [] Sample.both
           (Sample.fresh 0) 2);
    [reflexivity | now left | reflexivity | lia | lia | reflexivity].
Defined.

(* ================================================================= *)
(** ** What the ticks may change, and whom they send to *)

Lemma sameSettings_refl u : sameSettings u u.
Proof. unfold sameSettings. repeat split; auto; lia. Qed.

Lemma Visited_sameSettings E now p u c u' c' ev :
  Visited E now p u c u' c' ev -> sameSettings u u'.
Proof.
  intros V. destruct V; try apply sameSettings_refl;
    unfold sameSettings; simpl; repeat split; auto; try lia; try discriminate.
  all: intros _; destruct (active u); [reflexivity | discriminate].
Qed.

Lemma sameSettings_trans u v w :
  sameSettings u v -> sameSettings v w -> sameSettings u w.
Proof.
  unfold sameSettings. intros (A1 & A2 & A3 & A4 & A5) (B1 & B2 & B3 & B4 & B5).
  repeat split; try congruence; try lia. auto.
Qed.

Lemma sameRecords_refl db : sameRecords db db.
Proof.
  induction db; constructor; auto.
  split; [reflexivity | apply sameSettings_refl].
Qed.

Lemma sameRecords_trans a : forall b c,
  sameRecords a b -> sameRecords b c -> sameRecords a c.
Proof.
  unfold sameRecords.
  induction a as [|x a IH]; intros b c H1 H2; inversion H1; subst;
    inversion H2; subst; constructor.
  - destruct H3, H4. split; [congruence | eapply sameSettings_trans; eauto].
  - eapply IH; eauto.
Qed.

Lemma scan_sameRecords E now db : forall c db' c' ev,
  scan E now db c = (Val db', c', ev) -> sameRecords db db'.
Proof.
  induction db as [|[p u] rest IH]; intros c db' c' ev; simpl.
  - unfold ret. intros [= <- _ _]. constructor.
  - destruct (visit_cases E now p u c) as (u1 & c1 & ev1 & V & W).
    rewrite V.
    destruct (scan E now rest c1) as [[[rest'|e] c2] ev2] eqn:S;
      [|discriminate].
    intros [= <- _ _]. constructor; [|eapply IH; eauto].
    simpl. split; [reflexivity | eapply Visited_sameSettings; eauto].
Qed.

Lemma tick_sameRecords E now db c r db' c' ev :
  sendScheduledMessages E now db c = (r, db', c', ev) -> sameRecords db db'.
Proof.
  unfold sendScheduledMessages.
  destruct (scan_total E now db c) as (db1 & c1 & ev1 & S). rewrite S.
  intros [= _ <- _ _]. eapply scan_sameRecords; eauto.
Qed.

Lemma sameRecords_keys db db' : sameRecords db db' -> map fst db' = map fst db.
Proof. induction 1 as [|x y a b [K _] _ IH]; simpl; congruence. Qed.

Lemma sameRecords_lookup p db db' :
  sameRecords db db' ->
  match lookup p db, lookup p db' with
  | Some u, Some u' => sameSettings u u'
  | None, None => True
  | _, _ => False
  end.
Proof.
  induction 1 as [|[k u] [k' u'] a b [K S] _ IH]; simpl; auto.
  simpl in K, S. subst k'. destruct (String.eqb k p); auto.
Qed.

(** X13.  However many ticks run, and whatever the world answers, the
    store keeps its identities, in their order, and every record keeps its
    cadence, its lessons and its end time; the count of messages never
    goes down, and no tick makes active a subscriber that was not. *)
Theorem ticks_keep_settings E times : forall db c db' c' ev,
  ticks E times db c = (db', c', ev) ->
  map fst db' = map fst db
  /\ forall p,
       match lookup p db, lookup p db' with
       | Some u, Some u' =>
           sendIntervals u' = sendIntervals u
           /\ lessonWeights u' = lessonWeights u
           /\ endTime u' = endTime u
           /\ messageCount u <= messageCount u'
           /\ (active u' = true -> active u = true)
       | None, None => True
       | _, _ => False
       end.
Proof.
  assert (H : forall db c db' c' ev,
             ticks E times db c = (db', c', ev) -> sameRecords db db').
  { induction times as [|now rest IH]; intros db c db' c' ev; simpl.
    - intros [= <- _ _]. apply sameRecords_refl.
    - destruct (sendScheduledMessages E now db c) as [[[r db1] c1] ev1] eqn:T.
      destruct (ticks E rest db1 c1) as [[db2 c2] ev2] eqn:R.
      intros [= <- _ _]. apply tick_sameRecords in T.
      eapply sameRecords_trans; eauto. }
  intros db c db' c' ev T. apply H in T. split.
  - now apply sameRecords_keys.
  - intros p. apply (sameRecords_lookup p) in T. exact T.
Qed.

Lemma ticks_keep_settings_witness :
  exists db' c' ev,
    ticks (Sample.answering "<p>hi</p>") [0; hour] Sample.both Sample.idle
    = (db', c', ev)
    /\ map fst db' = map fst Sample.both
    /\ forall p,
         match lookup p Sample.both, lookup p db' with
         | Some u, Some u' =>
             sendIntervals u' = sendIntervals u
             /\ lessonWeights u' = lessonWeights u
             /\ endTime u' = endTime u
             /\ messageCount u <= messageCount u'
             /\ (active u' = true -> active u = true)
         | None, None => True
         | _, _ => False
         end.
Proof.
  eexists _, _, _. split; [vm_compute; reflexivity|].
  eapply (ticks_keep_settings (Sample.answering "<p>hi</p>") [0; hour]
            Sample.both Sample.idle).
  vm_compute. reflexivity.
Defined.

Lemma fetch_only_requests E lw c r c1 ev1 to body d :
  fetchArenaContent E lw c = (r, c1, ev1) -> ~ In (Created to body d) ev1.
Proof.
  intros F H. apply fetchWithRetry_events in F.
  rewrite forallb_forall in F. apply F in H. discriminate.
Qed.

Lemma Visited_recipient E now p u c u' c' ev to body d :
  Visited E now p u c u' c' ev -> In (Created to body d) ev ->
  to = p /\ active u = true /\ expired now u = false /\ due now u = true.
Proof.
  intros V I.
  assert (G : forall x y, negb (active u) || x = false -> y = true ->
                active u = true /\ x = false /\ y = true).
  { intros x y H ->. apply orb_false_elim in H as [A ->].
    destruct (active u); [auto | discriminate]. }
  destruct V as [A | A D | e c1 ev1 A D F | content c1 ev1 A D F G0
                 | content c1 ev1 A D F G0 C | content c1 ev1 A D F G0 C];
    try (now destruct I).
  - exfalso. eapply fetch_only_requests; eauto.
  - apply in_app_or in I as [I|I];
      [exfalso; eapply fetch_only_requests; eauto|].
    destruct I as [[= <- _ _]|[]]. auto.
  - apply in_app_or in I as [I|I];
      [exfalso; eapply fetch_only_requests; eauto|].
    destruct I as [[= <- _ _]|[]]. auto.
  - apply in_app_or in I as [I|I];
      [exfalso; eapply fetch_only_requests; eauto|].
    destruct I as [[= <- _ _]|[[= <- _ _]|[]]]; auto.
Qed.

Lemma scan_recipient E now db : forall c db' c' ev to body d,
  scan E now db c = (Val db', c', ev) -> In (Created to body d) ev ->
  exists u, In (to, u) db
            /\ active u = true /\ expired now u = false /\ due now u = true.
Proof.
  induction db as [|[p u] rest IH]; intros c db' c' ev to body d; simpl.
  - unfold ret. intros [= _ _ <-] [].
  - destruct (visit_cases E now p u c) as (u1 & c1 & ev1 & V & W).
    rewrite V.
    destruct (scan E now rest c1) as [[[rest'|e] c2] ev2] eqn:S;
      [|discriminate].
    intros [= _ _ <-] I. apply in_app_or in I as [I|I].
    + destruct (Visited_recipient _ _ _ _ _ _ _ _ _ _ _ W I) as (-> & H).
      exists u. split; [now left | exact H].
    + destruct (IH _ _ _ _ _ _ _ S I) as (v & Hv & H).
      exists v. split; [now right | exact H].
Qed.

(** X14.  A tick hands a message to the gateway only for an identity of
    the store whose record, as the tick found it, is active, not expired
    and due. *)
Theorem tick_sends_only_to_due_subscribers
    E now db c r db' c' ev to body d :
  sendScheduledMessages E now db c = (r, db', c', ev) ->
  In (Created to body d) ev ->
  exists u, In (to, u) db
            /\ active u = true /\ expired now u = false /\ due now u = true.
Proof.
  unfold sendScheduledMessages.
  destruct (scan_total E now db c) as (db1 & c1 & ev1 & S). rewrite S.
  intros [= _ _ _ <-]. eapply scan_recipient; eauto.
Qed.

Lemma tick_sends_only_to_due_subscribers_witness :
  exists u,
    In (Sample.alice, u) Sample.both
    /\ active u = true /\ expired 0 u = false /\ due 0 u = true.
Proof.
  eapply (tick_sends_only_to_due_subscribers
            (Sample.answering "<p>hi</p>") 0 Sample.both Sample.idle
            _ _ _ _ Sample.alice _ true).
  - vm_compute. reflexivity.
  - right. left. reflexivity.
Defined.

Lemma nuggets_app p a b : (nuggets p (a ++ b) = nuggets p a + nuggets p b)%nat.
Proof. unfold nuggets. now rewrite filter_app, length_app. Qed.

Lemma request_no_nuggets p ev :
  forallb isRequest ev = true -> nuggets p ev = 0%nat.
Proof.
  unfold nuggets.
  induction ev as [|[u|t b d] ev IH]; simpl; auto; discriminate.
Qed.

Lemma nuggets_one p u : nuggets p [Created p (nugget u) true] = 1%nat.
Proof.
  unfold nuggets, nugget. simpl. rewrite String.eqb_refl.
  now destruct u.
Qed.

Lemma nuggets_refused p b : nuggets p [Created p b false] = 0%nat.
Proof. reflexivity. Qed.

Lemma nuggets_prompt p d : nuggets p [Created p slowDownPrompt d] = 0%nat.
Proof.
  unfold nuggets. simpl. destruct d; [|reflexivity].
  now rewrite andb_false_r.
Qed.

Lemma fetch_no_nuggets E lw c r c1 ev1 p :
  fetchArenaContent E lw c = (r, c1, ev1) -> nuggets p ev1 = 0%nat.
Proof.
  intros F. apply fetchWithRetry_events in F. now apply request_no_nuggets.
Qed.

Lemma Visited_nuggets E now p u c u' c' ev :
  Visited E now p u c u' c' ev ->
  messageCount u' = messageCount u + Z.of_nat (nuggets p ev)
  /\ (nuggets p ev <= 1)%nat.
Proof.
  intros V.
  destruct V as [A | A D | e c1 ev1 A D F | content c1 ev1 A D F G
                 | content c1 ev1 A D F G C | content c1 ev1 A D F G C];
    try (unfold nuggets; simpl; split; lia).
  - apply (fetch_no_nuggets _ _ _ _ _ _ p) in F. rewrite F.
    simpl. lia.
  - apply (fetch_no_nuggets _ _ _ _ _ _ p) in F.
    rewrite nuggets_app, F, nuggets_refused. simpl. lia.
  - apply (fetch_no_nuggets _ _ _ _ _ _ p) in F.
    rewrite nuggets_app, F, nuggets_one.
    change (messageCount (advance now u)) with (messageCount u + 1).
    simpl. lia.
  - apply (fetch_no_nuggets _ _ _ _ _ _ p) in F.
    change [Created p (nugget (url content)) true;
            Created p slowDownPrompt
              (gateway E (S (sends c1)) p slowDownPrompt)]
      with ([Created p (nugget (url content)) true]
              ++ [Created p slowDownPrompt
                    (gateway E (S (sends c1)) p slowDownPrompt)])%list.
    rewrite !nuggets_app, F, nuggets_one, nuggets_prompt.
    change (messageCount (advance now u)) with (messageCount u + 1).
    simpl. lia.
Qed.

Lemma addressed_app p a b :
  addressed p (a ++ b) = (addressed p a ++ addressed p b)%list.
Proof. apply filter_app. Qed.

Lemma addressed_none p ev :
  (forall body d, ~ In (Created p body d) ev) <-> addressed p ev = [].
Proof.
  unfold addressed. induction ev as [|[url|to body d] ev IH]; simpl.
  - tauto.
  - rewrite <- IH. split; intros H body d.
    + intros I. apply (H body d). now right.
    + intros [?|I]; [discriminate | exact (H _ _ I)].
  - destruct (String.eqb_spec to p) as [->|N].
    + split; [|discriminate]. intros H. exfalso. apply (H body d). now left.
    + rewrite <- IH. split; intros H body' d'.
      * intros I. apply (H body' d'). now right.
      * intros [?|I]; [congruence | exact (H _ _ I)].
Qed.

Lemma nuggets_addressed p ev : nuggets p (addressed p ev) = nuggets p ev.
Proof.
  unfold nuggets, addressed.
  induction ev as [|[url|to body d] ev IH]; simpl; auto.
  destruct (String.eqb to p) eqn:T; simpl; rewrite ?T; simpl.
  - destruct d; simpl; [|exact IH].
    destruct (String.prefix _ body); simpl; now rewrite IH.
  - destruct d; exact IH.
Qed.

Lemma Visited_addressed_other E now q u c u' c' ev p :
  Visited E now q u c u' c' ev -> q <> p -> addressed p ev = [].
Proof.
  intros V N. apply addressed_none. intros body d I.
  destruct (Visited_recipient _ _ _ _ _ _ _ _ _ _ _ V I) as [-> _].
  congruence.
Qed.

Lemma scan_absent E now p db : forall c db' c' ev,
  lookup p db = None -> scan E now db c = (Val db', c', ev) ->
  addressed p ev = [].
Proof.
  induction db as [|[q u] rest IH]; intros c db' c' ev; simpl.
  - unfold ret. now intros _ [= _ _ <-].
  - destruct (String.eqb_spec q p) as [|N]; [discriminate|]. intros L.
    destruct (visit_cases E now q u c) as (u1 & c1 & ev1 & V & W).
    rewrite V.
    destruct (scan E now rest c1) as [[[rest'|e] c2] ev2] eqn:S;
      [|discriminate].
    intros [= _ _ <-]. rewrite addressed_app.
    rewrite (Visited_addressed_other _ _ _ _ _ _ _ _ p W N).
    eapply IH; eauto.
Qed.

Lemma lookup_absent p db : ~ In p (map fst db) -> lookup p db = None.
Proof.
  induction db as [|[q u] rest IH]; simpl; auto.
  intros H. destruct (String.eqb_spec q p) as [->|N]; [tauto|].
  apply IH. tauto.
Qed.

Lemma scan_own E now p db : forall u c db' c' ev,
  NoDup (map fst db) -> lookup p db = Some u ->
  scan E now db c = (Val db', c', ev) ->
  exists u' c0 c1 ev0,
    lookup p db' = Some u' /\ Visited E now p u c0 u' c1 ev0
    /\ addressed p ev = addressed p ev0.
Proof.
  induction db as [|[q v] rest IH]; intros u c db' c' ev; simpl.
  - discriminate.
  - intros D L. inversion D as [|x xs X D']; subst.
    destruct (visit_cases E now q v c) as (u1 & c1 & ev1 & V & W).
    rewrite V.
    destruct (scan E now rest c1) as [[[rest'|e] c2] ev2] eqn:S;
      [|discriminate].
    intros [= <- _ <-]. simpl. rewrite addressed_app.
    destruct (String.eqb_spec q p) as [->|N].
    + injection L as <-. exists u1, c, c1, ev1.
      split; [reflexivity|]. split; [exact W|].
      rewrite (scan_absent _ _ _ _ _ _ _ _ (lookup_absent _ _ X) S).
      apply app_nil_r.
    + destruct (IH _ _ _ _ _ D' L S) as (u' & c0 & c3 & ev0 & L' & V' & A).
      exists u', c0, c3, ev0. split; [exact L'|]. split; [exact V'|].
      now rewrite (Visited_addressed_other _ _ _ _ _ _ _ _ p W N).
Qed.

Lemma tick_own E now p db u c r db' c' ev :
  NoDup (map fst db) -> lookup p db = Some u ->
  sendScheduledMessages E now db c = (r, db', c', ev) ->
  NoDup (map fst db')
  /\ exists u' c0 c1 ev0,
       lookup p db' = Some u' /\ Visited E now p u c0 u' c1 ev0
       /\ addressed p ev = addressed p ev0.
Proof.
  intros D L T. split.
  - apply tick_sameRecords in T. apply sameRecords_keys in T. now rewrite T.
  - revert T. unfold sendScheduledMessages.
    destruct (scan_total E now db c) as (db1 & c1 & ev1 & S). rewrite S.
    intros [= _ <- _ <-]. eapply scan_own; eauto.
Qed.

(** X15.  Over any run of ticks, the count of messages of a subscriber
    grows by exactly the number of nuggets that the gateway accepted for
    that subscriber, which is at most one for each tick: a nugget that
    was refused, a fetch that failed and the slow-down prompt are not
    counted. *)
Theorem count_is_number_of_nuggets E p times : forall db u c db' c' ev,
  NoDup (map fst db) -> lookup p db = Some u ->
  ticks E times db c = (db', c', ev) ->
  exists u',
    lookup p db' = Some u'
    /\ messageCount u' = messageCount u + Z.of_nat (nuggets p ev)
    /\ (nuggets p ev <= List.length times)%nat.
Proof.
  induction times as [|now rest IH]; intros db u c db' c' ev D L; simpl.
  - intros [= <- _ <-]. exists u. unfold nuggets. simpl.
    split; [exact L|]. split; lia.
  - destruct (sendScheduledMessages E now db c) as [[[r db1] c1] ev1] eqn:T.
    destruct (ticks E rest db1 c1) as [[db2 c2] ev2] eqn:R.
    intros [= <- _ <-].
    destruct (tick_own _ _ _ _ _ _ _ _ _ _ D L T)
      as (D1 & u1 & c0 & c3 & ev0 & L1 & V & A).
    destruct (IH _ _ _ _ _ _ D1 L1 R) as (u' & L' & C & B).
    apply Visited_nuggets in V as [C1 B1].
    rewrite <- nuggets_addressed, <- A, nuggets_addressed in C1, B1.
    exists u'. split; [exact L'|]. rewrite nuggets_app. split; lia.
Qed.

Lemma count_is_number_of_nuggets_witness :
  exists db' c' ev,
    ticks (Sample.answering "<p>hi</p>") [0; 1000; hour] Sample.both Sample.idle
    = (db', c', ev)
    /\ exists u',
         lookup Sample.alice db' = Some u'
         /\ messageCount u'
            = messageCount (Sample.fresh 0)
              + Z.of_nat (nuggets Sample.alice ev)
         /\ (nuggets Sample.alice ev <= 3)%nat.
Proof.
  eexists _, _, _. split; [vm_compute; reflexivity|].
  eapply (count_is_number_of_nuggets (Sample.answering "<p>hi</p>") Sample.alice
            [0; 1000; hour] Sample.both (Sample.fresh 0) Sample.idle).
  - exact both_keys.
  - reflexivity.
  - vm_compute. reflexivity.
Defined.

Lemma inactive_retired u : active u = false -> set_active false u = u.
Proof. destruct u; simpl. now intros ->. Qed.

Lemma Visited_inactive E now p u c u' c' ev :
  Visited E now p u c u' c' ev -> active u = false -> u' = u /\ ev = [].
Proof.
  intros V A.
  destruct V as [_ | B | e c1 ev1 B | content c1 ev1 B
                 | content c1 ev1 B | content c1 ev1 B];
    try (rewrite A in B; discriminate).
  split; [now apply inactive_retired | reflexivity].
Qed.

Lemma ticks_inactive E p times : forall db u c db' c' ev,
  NoDup (map fst db) -> lookup p db = Some u -> active u = false ->
  ticks E times db c = (db', c', ev) ->
  lookup p db' = Some u /\ addressed p ev = [].
Proof.
  induction times as [|now rest IH]; intros db u c db' c' ev D L A; simpl.
  - intros [= <- _ <-]. auto.
  - destruct (sendScheduledMessages E now db c) as [[[r db1] c1] ev1] eqn:T.
    destruct (ticks E rest db1 c1) as [[db2 c2] ev2] eqn:R.
    intros [= <- _ <-].
    destruct (tick_own _ _ _ _ _ _ _ _ _ _ D L T)
      as (D1 & u1 & c0 & c3 & ev0 & L1 & V & Q).
    destruct (Visited_inactive _ _ _ _ _ _ _ _ V A) as [-> ->].
    destruct (IH _ _ _ _ _ _ D1 L1 A R) as [L' Q'].
    split; [exact L'|]. rewrite addressed_app, Q, Q'. reflexivity.
Qed.

Lemma store_keys p u db v :
  lookup p db = Some v -> map fst (store p u db) = map fst db.
Proof.
  induction db as [|[k w] r IH]; simpl; [discriminate|].
  destruct (String.eqb k p); simpl; [reflexivity|].
  intros L. now rewrite IH.
Qed.

(** X10.  [:stop] with no argument, or with a first argument other than
    "in" and "for", stops the subscriber at once: the record is stored
    with [active] false, and from then on no tick, whatever the world
    answers, hands anything to the gateway for that subscriber or changes
    the record. *)
Theorem stop_silences_ticks now p params db u :
  NoDup (map fst db) -> lookup p db = Some u ->
  (forall kw, nth_error params 0 = Some kw -> kw <> "in" /\ kw <> "for") ->
  exists db1,
    handleStop now p params db = Val (stopped, db1)
    /\ lookup p db1 = Some (set_active false u)
    /\ forall E times c db' c' ev,
         ticks E times db1 c = (db', c', ev) ->
         lookup p db' = Some (set_active false u)
         /\ forall body d, ~ In (Created p body d) ev.
Proof.
  intros D L K. exists (store p (set_active false u) db).
  assert (H : handleStop now p params db
              = Val (stopped, store p (set_active false u) db)).
  { unfold handleStop. destruct (nth_error params 0) as [kw|].
    - destruct (K kw eq_refl) as [A B].
      apply String.eqb_neq in A, B. rewrite A, B. simpl.
      now rewrite (update_found _ _ _ _ _ L).
    - now rewrite (update_found _ _ _ _ _ L). }
  split; [exact H|]. split; [apply lookup_store|].
  intros E times c db' c' ev T.
  assert (D1 : NoDup (map fst (store p (set_active false u) db)))
    by now rewrite (store_keys _ _ _ _ L).
  destruct (ticks_inactive _ _ _ _ _ _ _ _ _ D1 (lookup_store _ _ _)
              eq_refl T) as [L' Q].
  split; [exact L'|]. now apply addressed_none.
Qed.

Lemma stop_silences_ticks_witness :
  exists db1,
    handleStop 0 Sample.alice [] Sample.both = Val (stopped, db1)
    /\ lookup Sample.alice db1 = Some (set_active false (Sample.fresh 0))
    /\ forall E times c db' c' ev,
         ticks E times db1 c = (db', c', ev) ->
         lookup Sample.alice db' = Some (set_active false (Sample.fresh 0))
         /\ forall body d, ~ In (Created Sample.alice body d) ev.
Proof.
  apply (stop_silences_ticks 0 Sample.alice [] Sample.both (Sample.fresh 0));
    [exact both_keys | reflexivity |].
  intros kw H. discriminate H.
Defined.



(* ================================================================= *)
(** ** The signup route *)



Lemma welcome_not_nugget url : welcomeMessage <> firstNugget url.
Proof. unfold welcomeMessage, firstNugget. simpl. discriminate. Qed.

Lemma welcome_event p d url :
  Created p welcomeMessage d <> Created p (firstNugget url) true.
Proof.
  intros H. assert (Q : welcomeMessage = firstNugget url) by congruence.
  now apply welcome_not_nugget in Q.
Qed.

(** What the signup route hands to the gateway, for a number that passes
    the validation and is not registered. *)
Lemma welcome_cases E now p c r c' ev :
  welcome E now p c = (r, c', ev) ->
  (exists rest, ev = Created p welcomeMessage
                       (gateway E (sends c) p welcomeMessage) :: rest)
  /\ (forall to body d, In (Created to body d) ev -> to = p)
  /\ (r = Val tt <-> exists url, In (Created p (firstNugget url) true) ev).
Proof.
  unfold welcome, bind, create.
  destruct (gateway E (sends c) p welcomeMessage) eqn:G.
  2: { intros [= <- _ <-]. split; [eauto|]. split.
       - intros to body d [I|[]]. now inversion I.
       - split; [discriminate|].
         intros (url & [Q|[]]). now apply welcome_event in Q. }
  destruct (fetchArenaContent E (lessonWeights (newcomer now))
              {| randoms := randoms c; fetches := fetches c;
                 sends := S (sends c) |})
    as [[[content|e] c1] ev1] eqn:F.
  2: { intros [= <- _ <-]. split; [simpl; eauto|]. split.
       - intros to body d [I|I]; [now inversion I|].
         exfalso. eapply fetch_only_requests; eauto.
       - split; [discriminate|].
         intros (url & [Q|I]); [now apply welcome_event in Q|].
         exfalso. eapply fetch_only_requests; eauto. }
  destruct (gateway E (sends c1) p (firstNugget (url content))) eqn:G2;
    intros [= <- _ <-]; (split; [simpl; eauto|]); split.
  - intros to body d [I|I]; [now inversion I|].
    apply in_app_or in I as [I|[I|[]]]; [|now inversion I].
    exfalso. eapply fetch_only_requests; eauto.
  - split; [|reflexivity]. intros _. exists (url content).
    right. apply in_or_app. right. now left.
  - intros to body d [I|I]; [now inversion I|].
    apply in_app_or in I as [I|[I|[]]]; [|now inversion I].
    exfalso. eapply fetch_only_requests; eauto.
  - split; [discriminate|].
    intros (u & [Q|I]); [now apply welcome_event in Q|].
    apply in_app_or in I as [I|[I|[]]]; [|discriminate I].
    exfalso. eapply fetch_only_requests; eauto.
Qed.

(** X20.  For a phone number that passes the validation and has no
    record, the signup route stores the default record first, touching no
    other record, and then hands the welcome message to the gateway; it
    sends to that number only.  The answer is 200 exactly when the first
    nugget was accepted by the gateway, and 500 otherwise; in both cases
    the record stays, so that signing up again, as the 500 answer asks,
    is answered 409. *)
Theorem signup_stores_before_sending E now p db c resp db' c' ev :
  validatePhoneNumber (Some p) = true -> lookup p db = None ->
  signup E now (Some p) db c = (resp, db', c', ev) ->
  db' = store p (newcomer now) db
  /\ lookup p db' = Some (newcomer now)
  /\ (forall q, q <> p -> lookup q db' = lookup q db)
  /\ (resp = Signup200 p \/ resp = Signup500)
  /\ (resp = Signup200 p <->
      exists url, In (Created p (firstNugget url) true) ev)
  /\ (exists rest, ev = Created p welcomeMessage
                          (gateway E (sends c) p welcomeMessage) :: rest)
  /\ (forall to body d, In (Created to body d) ev -> to = p)
  /\ (forall E2 now2 c2,
        signup E2 now2 (Some p) db' c2 = (Signup409, db', c2, [])).
Proof.
  intros V L H. unfold signup in H. rewrite V, L in H. revert H.
  destruct (welcome E now p c) as [[r c1] ev1] eqn:W.
  destruct (welcome_cases _ _ _ _ _ _ _ W) as (F & T & R).
  assert (Q : forall E2 now2 c2,
             signup E2 now2 (Some p) (store p (newcomer now) db) c2
             = (Signup409, store p (newcomer now) db, c2, [])).
  { intros E2 now2 c2. unfold signup. now rewrite V, lookup_store. }
  destruct r as [[]|e]; intros [= <- <- <- <-];
    (split; [reflexivity|]); (split; [apply lookup_store|]);
    (split; [intros q N; now apply lookup_store_other|]).
  - split; [now left|].
    split; [split; [intros _; now apply R | reflexivity]|].
    split; [exact F|]. split; [exact T | exact Q].
  - split; [now right|].
    split; [split; [discriminate | intros H; apply R in H; discriminate]|].
    split; [exact F|]. split; [exact T | exact Q].
Qed.

Lemma signup_stores_before_sending_witness :
  let E := Sample.answering "<p>hi</p>" in
  exists resp db' c' ev,
    signup E 0 (Some Sample.carol) Sample.both Sample.idle = (resp, db', c', ev)
    /\ db' = store Sample.carol (newcomer 0) Sample.both
    /\ lookup Sample.carol db' = Some (newcomer 0)
    /\ (forall q, q <> Sample.carol -> lookup q db' = lookup q Sample.both)
    /\ (resp = Signup200 Sample.carol \/ resp = Signup500)
    /\ (resp = Signup200 Sample.carol <->
        exists url, In (Created Sample.carol (firstNugget url) true) ev)
    /\ (exists rest,
           ev = Created Sample.carol welcomeMessage
                  (gateway E (sends Sample.idle) Sample.carol welcomeMessage)
                :: rest)
    /\ (forall to body d, In (Created to body d) ev -> to = Sample.carol)
    /\ (forall E2 now2 c2,
          signup E2 now2 (Some Sample.carol) db' c2
          = (Signup409, db', c2, [])).
Proof.
  cbv zeta. eexists _, _, _, _. split; [vm_compute; reflexivity|].
  eapply (signup_stores_before_sending (Sample.answering "<p>hi</p>") 0
            Sample.carol Sample.both Sample.idle).
  - reflexivity.
  - reflexivity.
  - vm_compute. reflexivity.
Defined.

(* ================================================================= *)
(** ** The channels and the links of the fetcher *)

Lemma dropNull_mapi_In {A B} (f : A -> nat -> option B) y xs : forall k,
  In y (JS.dropNull (JS.mapi_from f k xs))
  <-> exists j x, nth_error xs j = Some x /\ f x (k + j)%nat = Some y.
Proof.
  induction xs as [|x r IH]; intros k; simpl.
  - split; [intros [] | intros ([|j] & x & H & _); discriminate].
  - assert (R : In y (JS.dropNull (JS.mapi_from f (S k) r))
                <-> exists j x', nth_error (x :: r) (S j) = Some x'
                                 /\ f x' (k + S j)%nat = Some y).
    { rewrite IH. split; intros (j & x' & H & F); exists j, x';
        (split; [exact H|]); rewrite <- F; f_equal; lia. }
    destruct (f x k) as [z|] eqn:F; simpl; rewrite R.
    + split.
      * intros [<-|(j & x' & H)]; [|eauto].
        exists 0%nat, x. split; [reflexivity|]. now rewrite Nat.add_0_r.
      * intros ([|j] & x' & H & G); [|eauto].
        injection H as <-. rewrite Nat.add_0_r in G. left. congruence.
    + split; [intros (j & x' & H); eauto|].
      intros ([|j] & x' & H & G); [|eauto].
      injection H as <-. rewrite Nat.add_0_r in G. congruence.
Qed.

Lemma activeChannels_In lw ch :
  In ch (activeChannels lw)
  <-> exists i, nth_error lw i = Some 1 /\ ch = nth_error channels i.
Proof.
  unfold activeChannels, JS.mapi. rewrite dropNull_mapi_In. simpl. split.
  - intros (j & x & H & F). destruct (Z.eqb_spec x 1) as [->|]; [|discriminate].
    exists j. split; [exact H | congruence].
  - intros (i & H & ->). exists i, 1. auto.
Qed.

Lemma attempt_channel E lw retry c r c' ev :
  In 1 lw -> (List.length lw <= 9)%nat ->
  attempt E lw retry c = (r, c', ev) -> Forall (enabledRequest lw) ev.
Proof.
  intros I L A.
  assert (Q : exists i name,
             nth_error lw i = Some 1 /\ nth_error channels i = Some name
             /\ match nth_error (activeChannels lw)
                        (JS.randomIndex (random E (randoms c))
                           (List.length (activeChannels lw))) with
                | Some ch => ch
                | None => None
                end = Some name).
  { destruct (activeChannels lw) as [|ch0 chs] eqn:S.
    - exfalso. apply In_nth_error in I as [i I].
      assert (H : In (nth_error channels i) (activeChannels lw))
        by (apply activeChannels_In; eauto).
      now rewrite S in H.
    - rewrite <- S.
      assert (B : (JS.randomIndex (random E (randoms c))
                     (List.length (activeChannels lw))
                   < List.length (activeChannels lw))%nat).
      { rewrite S. cbn [List.length JS.randomIndex].
        apply Nat.mod_upper_bound. discriminate. }
      destruct (nth_error (activeChannels lw) _) as [ch|] eqn:N;
        [|apply nth_error_None in N; lia].
      apply nth_error_In, activeChannels_In in N as (i & W & ->).
      assert (Li : (i < List.length channels)%nat).
      { assert (i < List.length lw)%nat
          by (apply nth_error_Some; congruence).
        change (List.length channels) with 9%nat. lia. }
      destruct (nth_error channels i) as [name|] eqn:C;
        [|apply nth_error_None in C; lia].
      exists i, name. auto. }
  destruct Q as (i & name & W & C & Sel).
  destruct (attempt_events _ _ _ _ _ _ _ A) as [u ->].
  constructor; [|constructor]. exists i, name.
  split; [exact W|]. split; [exact C|]. f_equal.
  revert A. unfold attempt, bind, mathRandomIndex, fetch. cbn [randoms fetches].
  rewrite Sel. change (channelUrl (Some name))
    with ("https://api.are.na/v2/channels/" ++ name ++ "/contents").
  destruct (remote E (fetches c) _) as [|status [contents|]|status].
  - now intros [= _ _ <-].
  - destruct ((200 <=? status) && (status <=? 299)).
    + simpl. destruct (nth_error contents _) as [[|h]|]; simpl;
        now intros [= _ _ <-].
    + destruct (status =? 404), retry; simpl; now intros [= _ _ <-].
  - destruct ((200 <=? status) && (status <=? 299)).
    + simpl. now intros [= _ _ <-].
    + destruct (status =? 404), retry; simpl; now intros [= _ _ <-].
  - destruct ((200 <=? status) && (status <=? 299)).
    + simpl. now intros [= _ _ <-].
    + destruct (status =? 404), retry; simpl; now intros [= _ _ <-].
Qed.

Lemma fetchWithRetry_channels E lw n : forall c r c' ev,
  In 1 lw -> (List.length lw <= 9)%nat ->
  fetchWithRetry E lw n c = (r, c', ev) -> Forall (enabledRequest lw) ev.
Proof.
  induction n as [|n IH]; intros c r c' ev I L; simpl; unfold bind, tryCatch.
  - destruct (attempt E lw None c) as [[r0 c0] ev0] eqn:A.
    pose proof (attempt_channel _ _ _ _ _ _ _ I L A) as Q.
    destruct r0 as [[content|k]|e]; simpl; intros H.
    + inversion H; subst. now rewrite ?app_nil_r.
    + apply attempt_inr in A. discriminate.
    + inversion H; subst. now rewrite ?app_nil_r.
  - destruct (attempt E lw _ c) as [[r0 c0] ev0] eqn:A.
    pose proof (attempt_channel _ _ _ _ _ _ _ I L A) as Q.
    destruct r0 as [[content|k]|e]; simpl.
    + intros H; inversion H; subst. now rewrite ?app_nil_r.
    + apply attempt_inr in A. inversion A; subst k.
      destruct (fetchWithRetry E lw n c0) as [[r1 c1] ev1] eqn:F.
      intros H; inversion H; subst. rewrite ?app_nil_r.
      apply Forall_app. split; [exact Q | eapply IH; eauto].
    + destruct (fetchWithRetry E lw n c0) as [[r1 c1] ev1] eqn:F.
      intros H; inversion H; subst. rewrite ?app_nil_r.
      apply Forall_app. split; [exact Q | eapply IH; eauto].
Qed.

(** X21.  For at most nine weights of which one is 1, every request of a
    fetch, the retries included, goes to the contents of one of the nine
    channels, and to one whose weight is 1: lessons that are switched off
    are never requested. *)
Theorem fetch_requests_enabled_channels E lw c r c' ev :
  In 1 lw -> (List.length lw <= 9)%nat ->
  fetchArenaContent E lw c = (r, c', ev) ->
  Forall (fun e =>
            exists i name,
              nth_error lw i = Some 1 /\ nth_error channels i = Some name
              /\ e = Requested ("https://api.are.na/v2/channels/" ++ name
                                  ++ "/contents")) ev.
Proof. intros I L F. eapply fetchWithRetry_channels; eauto. Qed.

Lemma fetch_requests_enabled_channels_witness :
  exists r c' ev,
    fetchArenaContent (Sample.flaky "<p>hi</p>") [0; 1; 0; 0; 1; 0; 0; 0; 0]
                      Sample.idle
    = (r, c', ev)
    /\ Forall (fun e =>
                 exists i name,
                   nth_error [0; 1; 0; 0; 1; 0; 0; 0; 0] i = Some 1
                   /\ nth_error channels i = Some name
                   /\ e = Requested ("https://api.are.na/v2/channels/"
                                       ++ name ++ "/contents")) ev.
Proof.
  eexists _, _, _. split; [vm_compute; reflexivity|].
  eapply (fetch_requests_enabled_channels (Sample.flaky "<p>hi</p>")
            [0; 1; 0; 0; 1; 0; 0; 0; 0]
            Sample.idle).
  - simpl. auto.
  - simpl. lia.
  - vm_compute. reflexivity.
Defined.

Lemma payload_nonempty h : payload h <> "".
Proof. destruct h as [[|c s]|]; discriminate. Qed.

Lemma attempt_wellBuilt E lw retry c content c' ev :
  attempt E lw retry c = (Val (inl content), c', ev) -> wellBuilt E content.
Proof.
  unfold attempt, bind, mathRandomIndex, fetch, ret, throw. simpl.
  destruct (remote E (fetches c) _) as [|status [contents|]|status]; simpl.
  - discriminate.
  - destruct ((200 <=? status) && (status <=? 299)).
    + destruct (nth_error contents _) as [[|h]|]; simpl; try discriminate.
      intros [= <- _ _]. split; [apply payload_nonempty | reflexivity].
    + destruct (status =? 404), retry; simpl; discriminate.
  - destruct ((200 <=? status) && (status <=? 299)).
    + discriminate.
    + destruct (status =? 404), retry; simpl; discriminate.
  - destruct ((200 <=? status) && (status <=? 299)).
    + discriminate.
    + destruct (status =? 404), retry; simpl; discriminate.
Qed.

Lemma fetchWithRetry_wellBuilt E lw n : forall c content c' ev,
  fetchWithRetry E lw n c = (Val content, c', ev) -> wellBuilt E content.
Proof.
  induction n as [|n IH]; intros c content c' ev; simpl; unfold bind, tryCatch.
  - destruct (attempt E lw None c) as [[r0 c0] ev0] eqn:A.
    destruct r0 as [[content0|k]|e]; simpl; intros H.
    + inversion H; subst. eapply attempt_wellBuilt; eauto.
    + apply attempt_inr in A. discriminate.
    + discriminate.
  - destruct (attempt E lw _ c) as [[r0 c0] ev0] eqn:A.
    destruct r0 as [[content0|k]|e]; simpl.
    + intros H; inversion H; subst. eapply attempt_wellBuilt; eauto.
    + apply attempt_inr in A. inversion A; subst k.
      destruct (fetchWithRetry E lw n c0) as [[r1 c1] ev1] eqn:F.
      intros H; inversion H; subst. eapply IH; eauto.
    + destruct (fetchWithRetry E lw n c0) as [[r1 c1] ev1] eqn:F.
      intros H; inversion H; subst. eapply IH; eauto.
Qed.

Lemma split_one_contains c s w : JS.split c s = [w] -> contains c s = false.
Proof.
  revert w. induction s as [|d r IH]; simpl; intros w; [reflexivity|].
  destruct (Ascii.eqb d c).
  - intros [= _ H]. now apply split_nonempty in H.
  - destruct (JS.split c r) as [|v vs] eqn:S; [now apply split_nonempty in S|].
    intros [= _ ->]. simpl. eapply IH; eauto.
Qed.

Lemma split_last c s : forall seg,
  JS.split c s = [seg; ""] -> s = seg ++ String c "".
Proof.
  induction s as [|d r IH]; simpl; intros seg; [discriminate|].
  destruct (Ascii.eqb_spec d c) as [->|N].
  - intros [= <- H]. apply split_single in H. now subst.
  - destruct (JS.split c r) as [|v vs] eqn:S; [discriminate|].
    intros [= <- ->]. simpl. f_equal. now apply IH.
Qed.

Lemma append_slash_nonempty seg : seg ++ "/" <> "".
Proof. destruct seg; discriminate. Qed.

Lemma pad2 seg c1 c2 : seg ++ "/" <> String c1 (String c2 "==").
Proof.
  destruct seg as [|s1 [|s2 [|s3 [|s4 seg]]]]; simpl; intros H;
    try discriminate H.
  injection H as _ _ _ _ H. destruct seg; discriminate H.
Qed.

Lemma pad1 seg c1 c2 c3 :
  seg ++ "/" <> String c1 (String c2 (String c3 "=")).
Proof.
  destruct seg as [|s1 [|s2 [|s3 [|s4 seg]]]]; simpl; intros H;
    try discriminate H.
  injection H as _ _ _ _ H. destruct seg; discriminate H.
Qed.

(** A base64 text cut before its last character, a [/], decodes to fewer
    bytes than were encoded. *)
Lemma decode_cut_le n : forall h seg,
  (String.length h <= n)%nat -> Base64.encode h = seg ++ "/" ->
  (String.length (Base64.decode seg) < String.length h)%nat.
Proof.
  unfold Base64.decode.
  induction n as [|n IH]; intros h seg L H.
  - destruct h; [|simpl in L; lia]. simpl in H. symmetry in H.
    now apply append_slash_nonempty in H.
  - destruct h as [|a [|b [|c r]]].
    + simpl in H. symmetry in H. now apply append_slash_nonempty in H.
    + cbn [Base64.encode] in H. symmetry in H. now apply pad2 in H.
    + cbn [Base64.encode] in H. symmetry in H. now apply pad1 in H.
    + destruct (block_facts (JS.code a) (JS.code b) (JS.code c)
                  (code_range a) (code_range b) (code_range c))
        as (K1 & K2 & K3 & K4 & _).
      unfold sextet1, sextet2, sextet3, sextet4 in K1, K2, K3, K4.
      cbn [Base64.encode] in H.
      destruct seg as [|s1 [|s2 [|s3 [|s4 seg]]]]; simpl in H;
        try discriminate H.
      * injection H as <- <- <- _ _.
        rewrite !known_sextets by assumption. simpl. lia.
      * injection H as <- <- <- <- H.
        rewrite !known_sextets by assumption.
        cbn [Base64.bytes String.length].
        assert (String.length (Base64.bytes (Base64.sextets seg))
                < String.length r)%nat; [|lia].
        apply IH; [simpl in L; lia | exact H].
Qed.

Lemma contains_app c a b : contains c (a ++ b) = contains c a || contains c b.
Proof.
  induction a as [|d a IH]; simpl; [reflexivity|].
  now rewrite IH, orb_assoc.
Qed.

(** What the content route makes of a base64 text with a [/] in it. *)
Lemma slash_cases h :
  contains "/" (Base64.encode h) = true ->
  getContent (contentPath (Base64.encode h)) = NoRoute
  \/ exists cut,
       getContent (contentPath (Base64.encode h)) = Html cut
       /\ (String.length cut < String.length h)%nat.
Proof.
  intros S. unfold getContent, contentParam.
  rewrite content_prefix, content_rest.
  change (String.eqb (JS.toLowerCase "/content/") "/content/") with true.
  cbv iota.
  destruct (JS.split "/" (Base64.encode h)) as [|seg [|t [|? ?]]] eqn:P.
  - now left.
  - apply split_one_contains in P. congruence.
  - destruct t; [|destruct seg; now left].
    apply split_last in P.
    destruct seg as [|s0 seg]; [now left|].
    assert (Q : contains "%" (String s0 seg) = false).
    { pose proof (encode_no_percent_le (String.length h) h (Nat.le_refl _))
        as N.
      rewrite P, contains_app in N. now apply orb_false_elim in N as [N _]. }
    rewrite Q. right. exists (Base64.decode (String s0 seg)).
    split; [reflexivity|].
    exact (decode_cut_le (String.length h) h (String s0 seg)
             (Nat.le_refl _) P).
  - destruct t; destruct seg; now left.
Qed.

Lemma string_cons x s y t : String x s = String y t -> x = y /\ s = t.
Proof. intros H. inversion H. auto. Qed.

(** The bytes of a base64 text cut before its last character, a [/], are
    the bytes that were encoded, but for the last of them. *)
Lemma decode_cut n : forall h seg,
  (String.length h <= n)%nat -> Base64.encode h = seg ++ "/" ->
  exists last, h = Base64.decode seg ++ String last "".
Proof.
  unfold Base64.decode.
  induction n as [|n IH]; intros h seg L H.
  - destruct h; [|simpl in L; lia]. simpl in H. symmetry in H.
    now apply append_slash_nonempty in H.
  - destruct h as [|a [|b [|c r]]].
    + simpl in H. symmetry in H. now apply append_slash_nonempty in H.
    + cbn [Base64.encode] in H. symmetry in H. now apply pad2 in H.
    + cbn [Base64.encode] in H. symmetry in H. now apply pad1 in H.
    + destruct (block_facts (JS.code a) (JS.code b) (JS.code c)
                  (code_range a) (code_range b) (code_range c))
        as (K1 & K2 & K3 & K4 & E1 & E2 & E3).
      unfold sextet1, sextet2, sextet3, sextet4 in K1, K2, K3, K4, E1, E2, E3.
      cbn [Base64.encode] in H.
      destruct seg as [|s1 [|s2 [|s3 [|s4 seg]]]]; cbn [append] in H;
        try discriminate H.
      * apply string_cons in H as [<- H]. apply string_cons in H as [<- H].
        apply string_cons in H as [<- H]. apply string_cons in H as [_ R].
        destruct r; [|destruct r as [|? [|? ?]]; discriminate R].
        rewrite !known_sextets by assumption.
        change (Base64.sextets "") with (@nil Z). cbn [Base64.bytes].
        rewrite E1, E2, !byte_code. exists c. reflexivity.
      * apply string_cons in H as [<- H]. apply string_cons in H as [<- H].
        apply string_cons in H as [<- H]. apply string_cons in H as [<- H].
        rewrite !known_sextets by assumption. cbn [Base64.bytes].
        rewrite E1, E2, E3, !byte_code.
        destruct (IH r seg) as [last R]; [simpl in L; lia | exact H |].
        exists last. simpl. now rewrite <- R.
Qed.

(** X22.  For a payload whose base64 text holds a [/], the content route
    never receives that text: the path built for the payload matches no
    route, or, when the [/] is the last character of the text, it matches
    with the text cut before that [/] as its parameter, and the bytes that
    the handler decodes of it are the payload without its last byte. *)
Theorem slash_in_base64_cuts_parameter h :
  contains "/" (Base64.encode h) = true ->
  contentParam (contentPath (Base64.encode h)) = NoMatch
  \/ exists seg last,
       contentParam (contentPath (Base64.encode h)) = Param seg
       /\ Base64.encode h = seg ++ "/"
       /\ h = Base64.decode seg ++ String last "".
Proof.
  intros S. unfold contentParam.
  rewrite content_prefix, content_rest.
  change (String.eqb (JS.toLowerCase "/content/") "/content/") with true.
  cbv iota.
  destruct (JS.split "/" (Base64.encode h)) as [|seg [|t [|? ?]]] eqn:P.
  - now left.
  - apply split_one_contains in P. congruence.
  - destruct t; [|destruct seg; now left].
    apply split_last in P.
    destruct seg as [|s0 seg]; [now left|].
    assert (Q : contains "%" (String s0 seg) = false).
    { pose proof (encode_no_percent_le (String.length h) h (Nat.le_refl _))
        as N.
      rewrite P, contains_app in N. now apply orb_false_elim in N as [N _]. }
    rewrite Q. right.
    destruct (decode_cut (String.length h) h (String s0 seg)
                (Nat.le_refl _) P) as [last R].
    exists (String s0 seg), last. auto.
  - destruct t; destruct seg; now left.
Qed.

Lemma slash_in_base64_cuts_parameter_witness :
  contentParam (contentPath (Base64.encode "???")) = Param "Pz8"
  /\ (contentParam (contentPath (Base64.encode "???")) = NoMatch
      \/ exists seg last,
           contentParam (contentPath (Base64.encode "???")) = Param seg
           /\ Base64.encode "???" = seg ++ "/"
           /\ "???" = Base64.decode seg ++ String last "").
Proof.
  split; [reflexivity|].
  apply (slash_in_base64_cuts_parameter "???"). reflexivity.
Defined.

Lemma resolves_iff h :
  h <> "" ->
  getContent (contentPath (Base64.encode h)) = Html h
  <-> contains "/" (Base64.encode h) = false.
Proof.
  intros N. split.
  - intros G. destruct (contains "/" (Base64.encode h)) eqn:S; [|reflexivity].
    exfalso. destruct (slash_cases h S) as [R|(cut & R & Lt)];
      rewrite R in G; [discriminate|].
    injection G as ->. lia.
  - intros S. unfold getContent, contentParam.
    rewrite content_prefix, content_rest, (split_whole _ _ S).
    change (String.eqb (JS.toLowerCase "/content/") "/content/") with true.
    cbv iota.
    rewrite (encode_no_percent_le (String.length h)) by lia.
    destruct (Base64.encode h) eqn:He; [now apply encode_nonempty in N|].
    now rewrite <- He, decode_encode.
Qed.

(** X23.  A fetch that succeeds gives a payload that is not empty and a
    link made of [BASE_URL], [/content/] and the base64 text of the
    payload; the content route answers the path of that link with the
    payload exactly when the base64 text holds no [/]. *)
Theorem fetched_link_resolves_iff_no_slash E lw c content c' ev :
  fetchArenaContent E lw c = (Val content, c', ev) ->
  exists path,
    url content = BASE_URL E ++ path
    /\ path = "/content/" ++ Base64.encode (html content)
    /\ html content <> ""
    /\ (getContent path = Html (html content)
        <-> contains "/" (Base64.encode (html content)) = false).
Proof.
  intros F. apply fetchWithRetry_wellBuilt in F as [N U].
  exists (contentPath (Base64.encode (html content))).
  split; [exact U|]. split; [reflexivity|]. split; [exact N|].
  now apply resolves_iff.
Qed.

Lemma fetched_link_resolves_iff_no_slash_witness :
  let E := Sample.answering "<p>hi</p>" in
  exists content c' ev,
    fetchArenaContent E (repeat 1 9) Sample.idle = (Val content, c', ev)
    /\ exists path,
         url content = BASE_URL E ++ path
         /\ path = "/content/" ++ Base64.encode (html content)
         /\ html content <> ""
         /\ (getContent path = Html (html content)
             <-> contains "/" (Base64.encode (html content)) = false).
Proof.
  cbv zeta. eexists _, _, _. split; [vm_compute; reflexivity|].
  eapply (fetched_link_resolves_iff_no_slash (Sample.answering "<p>hi</p>")
            (repeat 1 9) Sample.idle).
  vm_compute. reflexivity.
Defined.
